(** * jschannel: a shallow embedding of [Channel.build] and its message router

    Source: examples/tweetsup/static/jschannel.js.

    Modelling conventions.
    - JavaScript values are finite trees ([value]); numbers are integers.
      An Array is an object with a [length] whose elements are the
      properties keyed by the decimal indices, so that the source's
      "walk arrays as objects" is literal.
    - The values that travel (params, results, thrown values) have own
      properties only.  The tables the channel keeps in plain objects are
      read through [Object.prototype]: [regTbl[name]] and the callbacks of
      an outbound transaction find the inherited names ([Object_prototype]).
      A page that adds properties to [Object.prototype] is outside the
      model, and so are the property names hasOwnProperty and __proto__ in
      the params of a call: the walk of [pruneFunctions] calls
      [obj.hasOwnProperty] on the params themselves.
    - Functions passed through the channel are first-order: an application
      function is a name, [Local] if it returns (undefined, where what it
      returns is read) and [Faulty] if it raises (an Error object, which
      serialises like [native_error]); a proxy created by the
      router is [Synth].  Entering a continuation or a callback is recorded
      as the event [EApply].  A function that returns under the key toJSON,
      and a proxy under toJSON or toString, are outside the model.
    - Numbers are the integers a JavaScript number holds exactly (at most
      2^53 in absolute value), which print in decimal; identifiers of
      transactions are numbers.
    - A bound handler is a program over the transaction object ([hprog]).
    - Debug logging ([debug]) has no effect on the channel and is elided;
      the posted string [JSON.stringify(msg)] is recorded as the message
      object [msg], and [wire] is [JSON.parse] after [JSON.stringify]. *)

From Stdlib Require Import ZArith Ascii String List Lia.
From stdpp Require Import gmap strings list pretty.

Local Open Scope Z_scope.

(** ** Values *)

Inductive callable :=
| Local (name : string)     (* an application function that returns *)
| Faulty (name : string)    (* an application function that raises an Error *)
| Synth (id : Z) (callbacks : list string) (cbName : string).

#[local] Set Warnings "-register-all".

Inductive value :=
| VUndef
| VNull
| VBool (b : bool)
| VNum (n : Z)
| VStr (s : string)
| VFun (f : callable)
| VObj (props : list (string * value))
| VArr (len : nat) (props : list (string * value)).

#[global] Instance callable_eq_dec : EqDecision callable.
Proof. solve_decision. Defined.

Inductive jstype := TyUndefined | TyObject | TyBoolean | TyNumber | TyString | TyFunction.

#[global] Instance jstype_eq_dec : EqDecision jstype.
Proof. solve_decision. Defined.

(** [typeof v] *)
Definition typeof (v : value) : jstype :=
  match v with
  | VUndef => TyUndefined
  | VNull => TyObject
  | VBool _ => TyBoolean
  | VNum _ => TyNumber
  | VStr _ => TyString
  | VFun _ => TyFunction
  | VObj _ => TyObject
  | VArr _ _ => TyObject
  end.

(** the truth value of [v] in a condition *)
Definition truthy (v : value) : bool :=
  match v with
  | VUndef | VNull => false
  | VBool b => b
  | VNum n => negb (n =? 0)
  | VStr s => negb (bool_decide (s = ""))
  | VFun _ | VObj _ | VArr _ _ => true
  end.

Definition truthy_str (s : option string) : bool :=
  match s with Some s => negb (bool_decide (s = "")) | None => false end.

Definition truthy_num (n : option Z) : bool :=
  match n with Some n => negb (n =? 0) | None => false end.

(** a native Error object (TypeError, RangeError): [typeof] is 'object', it
    is not an Array and has no enumerable own property *)
Definition native_error : value := VObj [].

(** ** Own properties *)

Fixpoint assoc (k : string) (ps : list (string * value)) : value :=
  match ps with
  | [] => VUndef
  | (k', v) :: t => if decide (k' = k) then v else assoc k t
  end.

Fixpoint assoc_set (k : string) (v : value) (ps : list (string * value))
  : list (string * value) :=
  match ps with
  | [] => [(k, v)]
  | (k', v') :: t =>
      if decide (k' = k) then (k, v) :: t else (k', v') :: assoc_set k v t
  end.


(** the array index a property name denotes, if any: a decimal numeral
    without sign or leading zero *)
Definition digit_of (c : ascii) : option N :=
  let n := N_of_ascii c in
  if ((48 <=? n) && (n <=? 57))%N then Some (n - 48)%N else None.

Fixpoint parse_digits (acc : N) (s : string) : option N :=
  match s with
  | EmptyString => Some acc
  | String c r =>
      match digit_of c with
      | Some d => parse_digits (acc * 10 + d)%N r
      | None => None
      end
  end.

Definition index_of_key (k : string) : option nat :=
  match k with
  | EmptyString => None
  | String c r =>
      match parse_digits 0%N k with
      | Some n => if bool_decide (pretty n = k) then Some (N.to_nat n) else None
      | None => None
      end
  end.

(** [k] as a character index of the string [s] *)
Fixpoint char_at (s : string) (i : nat) : option ascii :=
  match s, i with
  | EmptyString, _ => None
  | String c _, O => Some c
  | String _ r, S j => char_at r j
  end.

(** [obj[k]] as an rvalue; reading a property of [null] or [undefined]
    raises a TypeError *)
Definition get_prop (obj : value) (k : string) : option value :=
  match obj with
  | VUndef | VNull => None
  | VBool _ | VNum _ | VFun _ => Some VUndef
  | VStr s =>
      if decide (k = "length") then Some (VNum (Z.of_nat (String.length s)))
      else match index_of_key k with
           | Some i =>
               match char_at s i with
               | Some c => Some (VStr (String c EmptyString))
               | None => Some VUndef
               end
           | None => Some VUndef
           end
  | VObj ps => Some (assoc k ps)
  | VArr n ps =>
      if decide (k = "length") then Some (VNum (Z.of_nat n)) else Some (assoc k ps)
  end.

(** the object after [obj[k] = v] (sloppy mode): a TypeError on [null] and
    [undefined], ignored on a primitive, a RangeError when an Array's
    length is set to a non-number; an index at or past the length extends
    the Array *)
Definition set_prop (obj : value) (k : string) (v : value) : option value :=
  match obj with
  | VUndef | VNull => None
  | VBool _ | VNum _ | VStr _ | VFun _ => Some obj
  | VObj ps => Some (VObj (assoc_set k v ps))
  | VArr n ps =>
      if decide (k = "length") then
        match v with
        | VNum m => if decide (0 <= m) then Some (VArr (Z.to_nat m) ps) else None
        | _ => None
        end
      else
        Some (VArr (match index_of_key k with
                    | Some i => Nat.max n (S i)
                    | None => n
                    end) (assoc_set k v ps))
  end.

(** ** Strings *)

(** [s.split('/')] *)
Fixpoint split_slash (s : string) : list string :=
  match s with
  | EmptyString => [EmptyString]
  | String c r =>
      if decide (c = "/"%char) then EmptyString :: split_slash r
      else match split_slash r with
           | h :: t => String c h :: t
           | [] => [String c EmptyString]
           end
  end.

(** [s.split('::')] *)
Fixpoint split_dcolon (s : string) : list string :=
  match s with
  | EmptyString => [EmptyString]
  | String c r =>
      let keep :=
        match split_dcolon r with
        | h :: t => String c h :: t
        | [] => [String c EmptyString]
        end in
      match r with
      | String c' r' =>
          if decide (c = ":"%char) then
            if decide (c' = ":"%char) then EmptyString :: split_dcolon r'
            else keep
          else keep
      | EmptyString => keep
      end
  end.

(** ** JSON

    [JSON.stringify v] on a value that holds no function under the key
    [toJSON]: [None] is the result [undefined]. *)

Definition dquote : string := String (ascii_of_nat 34) EmptyString.

Definition hex_digit (n : N) : ascii :=
  ascii_of_N (if (n <? 10)%N then 48 + n else 87 + n)%N.

Definition escape_char (c : ascii) : string :=
  let n := N_of_ascii c in
  if (n =? 34)%N then "\" +:+ dquote
  else if (n =? 92)%N then "\\"
  else if (n =? 8)%N then "\b"
  else if (n =? 12)%N then "\f"
  else if (n =? 10)%N then "\n"
  else if (n =? 13)%N then "\r"
  else if (n =? 9)%N then "\t"
  else if (n <? 32)%N then
    "\u00" +:+ String (hex_digit (n / 16)) (String (hex_digit (n mod 16)) EmptyString)
  else String c EmptyString.

Fixpoint quote_chars (s : string) : string :=
  match s with
  | EmptyString => EmptyString
  | String c r => escape_char c +:+ quote_chars r
  end.

Definition quote (s : string) : string := dquote +:+ quote_chars s +:+ dquote.

Fixpoint join_comma (l : list string) : string :=
  match l with
  | [] => EmptyString
  | [x] => x
  | x :: t => x +:+ "," +:+ join_comma t
  end.

Fixpoint assoc_str (k : string) (ps : list (string * option string)) : option string :=
  match ps with
  | [] => None
  | (k', v) :: t => if decide (k' = k) then v else assoc_str k t
  end.

Fixpoint JSON_stringify (v : value) : option string :=
  let fix members (ps : list (string * value)) : list (string * option string) :=
    match ps with
    | [] => []
    | (k, x) :: t => (k, JSON_stringify x) :: members t
    end in
  match v with
  | VUndef | VFun _ => None
  | VNull => Some "null"
  | VBool b => Some (if b then "true" else "false")
  | VNum n => Some (pretty n)
  | VStr s => Some (quote s)
  | VObj ps =>
      Some ("{" +:+
            join_comma (omap (λ kv, (λ s, quote kv.1 +:+ ":" +:+ s) <$> kv.2) (members ps))
            +:+ "}")
  | VArr n ps =>
      let ms := members ps in
      Some ("[" +:+
            join_comma (map (λ i : nat, default "null" (assoc_str (pretty i) ms)) (seq 0 n))
            +:+ "]")
  end.

(** [JSON.parse(JSON.stringify(v))]: what a value looks like at the other
    end.  [undefined] and functions vanish from objects and become [null]
    in Arrays; an Array keeps its indexed elements only. *)
Definition null_if_undef (v : value) : value :=
  match v with VUndef => VNull | _ => v end.

Definition is_undef (v : value) : bool :=
  match v with VUndef => true | _ => false end.

Fixpoint jsonify (v : value) : value :=
  let fix members (ps : list (string * value)) : list (string * value) :=
    match ps with
    | [] => []
    | (k, x) :: t => (k, jsonify x) :: members t
    end in
  match v with
  | VUndef | VFun _ => VUndef
  | VNull | VBool _ | VNum _ | VStr _ => v
  | VObj ps => VObj (filter (λ kv, is_undef kv.2 = false) (members ps))
  | VArr n ps =>
      let ms := members ps in
      VArr n (map (λ i : nat, (pretty i, null_if_undef (assoc (pretty i) ms))) (seq 0 n))
  end.

(** ** Message frames *)

Record frame := Frame {
  f_id : option Z;
  f_method : option string;
  f_params : value;
  f_callbacks : option (list string);
  f_callback : option string;
  f_result : value;
  f_error : value;
  f_message : value
}.

Definition wire (m : frame) : frame :=
  {| f_id := f_id m; f_method := f_method m; f_params := jsonify (f_params m);
     f_callbacks := f_callbacks m; f_callback := f_callback m;
     f_result := jsonify (f_result m); f_error := jsonify (f_error m);
     f_message := jsonify (f_message m) |}.

(** [{ id, method, params, callbacks? }] *)
Definition request_frame (id : Z) (method : string) (params : value)
    (callbacks : option (list string)) : frame :=
  Frame (Some id) (Some method) params callbacks None VUndef VUndef VUndef.
(** [{ id, callback, params }] *)
Definition progress_frame (id : Z) (cbName : string) (params : value) : frame :=
  Frame (Some id) None params None (Some cbName) VUndef VUndef VUndef.
(** [{ id, result }] *)
Definition result_frame (id : Z) (v : value) : frame :=
  Frame (Some id) None VUndef None None v VUndef VUndef.
(** [{ id, error, message }] *)
Definition error_frame (id : Z) (error message : value) : frame :=
  Frame (Some id) None VUndef None None VUndef error message.
(** [{ method, params }] *)
Definition notification_frame (method : string) (params : value) : frame :=
  Frame None (Some method) params None None VUndef VUndef VUndef.


(** ** Channel state *)

(** a record of [tranTbl] with [t: 'out'] *)
Record out_tran := OutTran {
  o_callbacks : gmap string callable;
  o_error : option callable;
  o_success : callable
}.

(** [{ t: 'in' }] or [{ t: 'out', callbacks, error, success }] *)
Inductive tran := TIn | TOut (r : out_tran).

Inductive outcome (A : Type) :=
| Ok (a : A)
| Throw (e : value).
Arguments Ok {A} a.
Arguments Throw {A} e.

(** What a bound function does with the transaction object it is given:
    each node is one method call on [trans], continued with what the call
    returned or raised.  (Calling the function found in [params] under a
    callback path is the call [trans.invoke(path, v)].) *)
Inductive hprog :=
| HReturn (v : value)
| HThrow (e : value)
| HInvoke (cbName : string) (v : value) (k : outcome unit → hprog)
| HError (error message : value) (k : outcome unit → hprog)
| HComplete (v : value) (k : outcome unit → hprog)
| HDelayReturn (delay : value) (k : outcome bool → hprog)
| HCompleted (k : outcome bool → hprog).

(** the first argument of a bound function: [null] for a notification *)
Inductive trans_arg := NullTrans | TransObj.

(** The properties every object inherits from [Object.prototype]
    (ECMAScript 5.1, section 15.2.4, with __proto__ and the four accessor
    helpers that browsers add). *)
Inductive builtin :=
| BConstructor | BToString | BToLocaleString | BValueOf
| BHasOwnProperty | BIsPrototypeOf | BPropertyIsEnumerable
| BProto | BDefineGetter | BDefineSetter | BLookupGetter | BLookupSetter.

Definition Object_prototype (name : string) : option builtin :=
  if decide (name = "constructor") then Some BConstructor
  else if decide (name = "toString") then Some BToString
  else if decide (name = "toLocaleString") then Some BToLocaleString
  else if decide (name = "valueOf") then Some BValueOf
  else if decide (name = "hasOwnProperty") then Some BHasOwnProperty
  else if decide (name = "isPrototypeOf") then Some BIsPrototypeOf
  else if decide (name = "propertyIsEnumerable") then Some BPropertyIsEnumerable
  else if decide (name = "__proto__") then Some BProto
  else if decide (name = "__defineGetter__") then Some BDefineGetter
  else if decide (name = "__defineSetter__") then Some BDefineSetter
  else if decide (name = "__lookupGetter__") then Some BLookupGetter
  else if decide (name = "__lookupSetter__") then Some BLookupSetter
  else None.

(** what [regTbl[name]] can be: the channel's own [onReady], a function
    bound by the application, or a property inherited from
    [Object.prototype] *)
Inductive handler :=
| HReady
| HUser (h : trans_arg → value → hprog)
| HBuiltin (b : builtin).

(** [regTbl[name]]: an own property first, an inherited one otherwise *)
Definition reg_get (tbl : gmap string handler) (name : string) : option handler :=
  match tbl !! name with
  | Some h => Some h
  | None => HBuiltin <$> Object_prototype name
  end.

Record chan := Chan {
  cfg_origin : option string;             (* [null] once destroyed *)
  cfg_scope : option string;
  cfg_postMessageObserver : bool;
  cfg_gotMessageObserver : bool;
  cfg_onReady : bool;
  chanId : string;
  regTbl : gmap string handler;
  tranTbl : gmap Z tran;
  curTranId : Z;
  ready : bool;
  pendingQueue : list frame;
  listening : bool                        (* the 'message' listener is attached *)
}.

Definition set_origin (o : option string) (c : chan) : chan :=
  Chan o (cfg_scope c) (cfg_postMessageObserver c) (cfg_gotMessageObserver c)
       (cfg_onReady c) (chanId c) (regTbl c) (tranTbl c) (curTranId c) (ready c)
       (pendingQueue c) (listening c).
Definition set_chanId (i : string) (c : chan) : chan :=
  Chan (cfg_origin c) (cfg_scope c) (cfg_postMessageObserver c) (cfg_gotMessageObserver c)
       (cfg_onReady c) i (regTbl c) (tranTbl c) (curTranId c) (ready c)
       (pendingQueue c) (listening c).
Definition set_regTbl (r : gmap string handler) (c : chan) : chan :=
  Chan (cfg_origin c) (cfg_scope c) (cfg_postMessageObserver c) (cfg_gotMessageObserver c)
       (cfg_onReady c) (chanId c) r (tranTbl c) (curTranId c) (ready c)
       (pendingQueue c) (listening c).
Definition set_tranTbl (t : gmap Z tran) (c : chan) : chan :=
  Chan (cfg_origin c) (cfg_scope c) (cfg_postMessageObserver c) (cfg_gotMessageObserver c)
       (cfg_onReady c) (chanId c) (regTbl c) t (curTranId c) (ready c)
       (pendingQueue c) (listening c).
Definition set_curTranId (n : Z) (c : chan) : chan :=
  Chan (cfg_origin c) (cfg_scope c) (cfg_postMessageObserver c) (cfg_gotMessageObserver c)
       (cfg_onReady c) (chanId c) (regTbl c) (tranTbl c) n (ready c)
       (pendingQueue c) (listening c).
Definition set_ready (b : bool) (c : chan) : chan :=
  Chan (cfg_origin c) (cfg_scope c) (cfg_postMessageObserver c) (cfg_gotMessageObserver c)
       (cfg_onReady c) (chanId c) (regTbl c) (tranTbl c) (curTranId c) b
       (pendingQueue c) (listening c).
Definition set_pendingQueue (q : list frame) (c : chan) : chan :=
  Chan (cfg_origin c) (cfg_scope c) (cfg_postMessageObserver c) (cfg_gotMessageObserver c)
       (cfg_onReady c) (chanId c) (regTbl c) (tranTbl c) (curTranId c) (ready c)
       q (listening c).
Definition set_listening (b : bool) (c : chan) : chan :=
  Chan (cfg_origin c) (cfg_scope c) (cfg_postMessageObserver c) (cfg_gotMessageObserver c)
       (cfg_onReady c) (chanId c) (regTbl c) (tranTbl c) (curTranId c) (ready c)
       (pendingQueue c) b.

(** ** Effects

    What a run of channel code does besides changing [chan]. *)
Inductive event :=
| EPost (targetOrigin : option string) (msg : frame)
    (* [cfg.window.postMessage(JSON.stringify(msg), cfg.origin)] *)
| EPostObserver (origin : option string) (msg : frame)
| EGotObserver (origin : string) (msg : frame)
| EHandle (method : string) (trans : trans_arg) (params : value)
    (* a function of [regTbl] is entered *)
| EApply (f : callable) (args : list value)
    (* a function given to [call] is entered *)
| EOnReady.

(** Channel code: it reads and writes the channel, emits events, and
    returns or raises.  What was written and emitted before a raise stays. *)
Definition M (A : Type) : Type := chan → outcome A * chan * list event.

Definition ret {A} (a : A) : M A := λ st, (Ok a, st, []).
Definition throw {A} (e : value) : M A := λ st, (Throw e, st, []).
Definition seqM {A B} (m : M A) (k : A → M B) : M B := λ st,
  match m st with
  | (Ok a, st1, ev1) =>
      match k a st1 with
      | (r, st2, ev2) => (r, st2, ev1 ++ ev2)
      end
  | (Throw e, st1, ev1) => (Throw e, st1, ev1)
  end.
Definition try_catch {A} (m : M A) (h : value → M A) : M A := λ st,
  match m st with
  | (Ok a, st1, ev1) => (Ok a, st1, ev1)
  | (Throw e, st1, ev1) =>
      match h e st1 with
      | (r, st2, ev2) => (r, st2, ev1 ++ ev2)
      end
  end.
Definition get : M chan := λ st, (Ok st, st, []).
Definition modify (f : chan → chan) : M unit := λ st, (Ok tt, f st, []).
Definition emit (e : event) : M unit := λ st, (Ok tt, st, [e]).
Definition when (b : bool) (m : M unit) : M unit := if b then m else ret tt.

Declare Scope chan_scope.
Delimit Scope chan_scope with chan.
Notation "x <- m ;; k" := (seqM m (λ x, k))
  (at level 100, m at next level, k at level 200, right associativity) : chan_scope.
Notation "m ;; k" := (seqM m (λ _, k))
  (at level 100, k at level 200, right associativity) : chan_scope.
Local Open Scope chan_scope.

Definition st_of {A} (r : outcome A * chan * list event) : chan := r.1.2.
Definition events_of {A} (r : outcome A * chan * list event) : list event := r.2.
Definition result_of {A} (r : outcome A * chan * list event) : outcome A := r.1.1.

(** a raise turned into a value, for the caller to inspect *)
Definition attempt {A} (m : M A) : M (outcome A) := λ st,
  match m st with
  | (r, st1, ev1) => (Ok r, st1, ev1)
  end.

(** ** Sending *)

(** [scopeMethod(m)] *)
Definition scopeMethod (scope : option string) (m : string) : string :=
  match scope with
  | Some s => if bool_decide (s = "") then m else s +:+ "::" +:+ m
  | None => m
  end.

(** [postMessage(msg, force)] *)
Definition postMessage (msg : frame) (force : bool) : M unit :=
  st <- get ;;
  if negb force && negb (ready st) then
    modify (λ st, set_pendingQueue (pendingQueue st ++ [msg]) st)
  else
    when (cfg_postMessageObserver st) (emit (EPostObserver (cfg_origin st) msg)) ;;
    emit (EPost (cfg_origin st) msg).

(** ** The transaction object of [createTransaction(id, callbacks)] *)

(** its two private variables *)
Record tflags := TFlags { shouldDelayReturn : bool; completed : bool }.

(** [trans.invoke(cbName, v)] *)
Definition trans_invoke (id : Z) (callbacks : list string) (cbName : string)
    (v : value) : M unit :=
  st <- get ;;
  match tranTbl st !! id with
  | None =>
      throw (VStr ("attempting to invoke a callback of a non-existant transaction: "
                   +:+ pretty id))
  | Some _ =>
      if bool_decide (cbName ∈ callbacks) then postMessage (progress_frame id cbName v) false
      else throw (VStr ("request supports no such callback '" +:+ cbName +:+ "'"))
  end.

(** [trans.error(error, message)], after [completed = true] *)
Definition trans_error (id : Z) (error message : value) : M unit :=
  st <- get ;;
  match tranTbl st !! id with
  | None => throw (VStr ("error called for non-existant message: " +:+ pretty id))
  | Some (TOut _) => throw (VStr "error called for message we *sent*.  that's not right")
  | Some TIn =>
      modify (λ st, set_tranTbl (delete id (tranTbl st)) st) ;;
      postMessage (error_frame id error message) false
  end.

(** [trans.complete(v)], after [completed = true] *)
Definition trans_complete (id : Z) (v : value) : M unit :=
  st <- get ;;
  match tranTbl st !! id with
  | None => throw (VStr ("complete called for non-existant message: " +:+ pretty id))
  | Some (TOut _) => throw (VStr "complete called for message we *sent*.  that's not right")
  | Some TIn =>
      modify (λ st, set_tranTbl (delete id (tranTbl st)) st) ;;
      postMessage (result_frame id v) false
  end.

(** [trans.delayReturn(delay)] *)
Definition trans_delayReturn (delay : value) (fl : tflags) : tflags :=
  match delay with
  | VBool b => TFlags b (completed fl)
  | _ => fl
  end.

(** Running a bound function's program against its transaction object
    [t] ([None] when the function was given [null]). *)
Fixpoint run_hprog (t : option (Z * list string)) (fl : tflags) (p : hprog)
  : M (value * tflags) :=
  match p with
  | HReturn v => ret (v, fl)
  | HThrow e => throw e
  | HInvoke cbName v k =>
      match t with
      | Some (id, callbacks) =>
          r <- attempt (trans_invoke id callbacks cbName v) ;; run_hprog t fl (k r)
      | None => run_hprog t fl (k (Throw native_error))
      end
  | HError error message k =>
      match t with
      | Some (id, _) =>
          r <- attempt (trans_error id error message) ;;
          run_hprog t (TFlags (shouldDelayReturn fl) true) (k r)
      | None => run_hprog t fl (k (Throw native_error))
      end
  | HComplete v k =>
      match t with
      | Some (id, _) =>
          r <- attempt (trans_complete id v) ;;
          run_hprog t (TFlags (shouldDelayReturn fl) true) (k r)
      | None => run_hprog t fl (k (Throw native_error))
      end
  | HDelayReturn delay k =>
      match t with
      | Some _ =>
          let fl' := trans_delayReturn delay fl in
          run_hprog t fl' (k (Ok (shouldDelayReturn fl')))
      | None => run_hprog t fl (k (Throw native_error))
      end
  | HCompleted k =>
      match t with
      | Some _ => run_hprog t fl (k (Ok (completed fl)))
      | None => run_hprog t fl (k (Throw native_error))
      end
  end.


(** calling a function the channel holds for a call (a continuation or a
    callback) with [args]: an application function is entered and returns
    or raises; a proxy takes its first argument to [trans.invoke] *)
Definition enter (f : callable) (args : list value) : M unit :=
  match f with
  | Synth id callbacks cbName => trans_invoke id callbacks cbName (hd VUndef args)
  | Local _ => emit (EApply f args)
  | Faulty _ => emit (EApply f args) ;; throw native_error
  end.

(** the transaction object as a value: its five methods *)
Definition trans_value : value :=
  VObj [("invoke", VFun (Local "invoke")); ("error", VFun (Local "error"));
        ("complete", VFun (Local "complete")); ("delayReturn", VFun (Local "delayReturn"));
        ("completed", VFun (Local "completed"))].

(** [String(trans)], the property key the first argument stands for *)
Definition key_of_trans (t : trans_arg) : string :=
  match t with TransObj => "[object Object]" | NullTrans => "null" end.

(** an inherited property called as [regTbl[name](trans, params)], with
    [regTbl] for [this]; [params], parsed from JSON, is not callable *)
Definition run_builtin (b : builtin) (t : trans_arg) : M value :=
  st <- get ;;
  match b with
  | BConstructor => ret (match t with TransObj => trans_value | NullTrans => VObj [] end)
  | BToString | BToLocaleString => ret (VStr "[object Object]")
  | BValueOf =>
      ret (VObj (map (λ kh : string * handler, (kh.1, VFun (Local kh.1)))
                   (map_to_list (regTbl st))))
  | BHasOwnProperty | BPropertyIsEnumerable =>
      ret (VBool (bool_decide (is_Some (regTbl st !! key_of_trans t))))
  | BIsPrototypeOf => ret (VBool false)
  | BLookupGetter | BLookupSetter => ret VUndef
  | BProto | BDefineGetter | BDefineSetter => throw native_error
  end.

(** an inherited property called as [callbacks[name](params)]: what it
    returns is dropped *)
Definition builtin_raises (b : builtin) : bool :=
  match b with
  | BProto | BDefineGetter | BDefineSetter => true
  | _ => false
  end.

(** ** The public surface, and [onReady] *)

(** [obj.unbind(method)] *)
Definition unbind (method : string) : M bool :=
  st <- get ;;
  match reg_get (regTbl st) method with
  | Some _ => modify (λ st, set_regTbl (delete method (regTbl st)) st) ;; ret true
  | None => ret false
  end.

(** [obj.bind(method, cb)] *)
Definition bind (method : string) (cb : handler) : M unit :=
  if bool_decide (method = "") then
    throw (VStr "'method' argument to bind must be string")
  else
    st <- get ;;
    match reg_get (regTbl st) method with
    | Some _ => throw (VStr ("method '" +:+ method +:+ "' is already bound!"))
    | None => modify (λ st, set_regTbl (<[method := cb]> (regTbl st)) st)
    end.

(** [obj.notify({ method, params })] *)
Definition notify (method : string) (params : value) : M unit :=
  if bool_decide (method = "") then
    throw (VStr "'method' argument to notify must be string")
  else
    st <- get ;;
    postMessage (notification_frame (scopeMethod (cfg_scope st) method) params) false.

(** [pruneFunctions(path, obj)]: the object after the walk, and the
    functions taken out of it with their paths, in the order met.  The
    test [obj.hasOwnProperty(k)] is that of [Object.prototype], true of
    every own key: no object walked has an own property hasOwnProperty. *)
Definition sub_path (path k : string) : string :=
  path +:+ (if bool_decide (path = "") then "" else "/") +:+ k.

Fixpoint pruneFunctions (path : string) (obj : value)
  : value * list (string * callable) :=
  let fix walk (ps : list (string * value))
    : list (string * value) * list (string * callable) :=
    match ps with
    | [] => ([], [])
    | (k, x) :: t =>
        let np := sub_path path k in
        match x with
        | VFun f => let r := walk t in (r.1, (np, f) :: r.2)
        | VUndef | VBool _ | VNum _ | VStr _ =>
            let r := walk t in ((k, x) :: r.1, r.2)
        | VNull | VObj _ | VArr _ _ =>
            let rx := pruneFunctions np x in
            let r := walk t in ((k, rx.1) :: r.1, rx.2 ++ r.2)
        end
    end in
  match obj with
  | VObj ps => let r := walk ps in (VObj r.1, r.2)
  | VArr n ps => let r := walk ps in (VArr n r.1, r.2)
  | _ => (obj, [])
  end.

(** the arguments of [obj.call]; [c_success] is [None] when absent *)
Record call_args := CallArgs {
  c_method : string;
  c_params : value;
  c_success : option callable;
  c_error : option callable
}.

(** [callbacks[np] = obj[k]] for each function met *)
Definition callbacks_of (recs : list (string * callable)) : gmap string callable :=
  fold_left (λ acc pf, <[pf.1 := pf.2]> acc) recs ∅.

(** [obj.call(m)] *)
Definition call (m : call_args) : M unit :=
  if bool_decide (c_method m = "") then
    throw (VStr "'method' argument to call must be string")
  else
    match c_success m with
    | None => throw (VStr "'success' callback missing from call")
    | Some success =>
        let pruned := pruneFunctions "" (c_params m) in
        let callbacks := callbacks_of pruned.2 in
        let callbackNames := map fst pruned.2 in
        st <- get ;;
        let msg := request_frame (curTranId st) (scopeMethod (cfg_scope st) (c_method m))
                     pruned.1
                     (match callbackNames with [] => None | _ => Some callbackNames end) in
        modify (λ st, set_tranTbl
                  (<[curTranId st := TOut (OutTran callbacks (c_error m) success)]>
                     (tranTbl st)) st) ;;
        modify (λ st, set_curTranId (curTranId st + 2) st) ;;
        postMessage msg false
    end.

(** [obj.destroy()] *)
Definition destroy : M unit :=
  modify (λ st,
    set_chanId "" (set_pendingQueue [] (set_origin None (set_curTranId 0
      (set_tranTbl ∅ (set_regTbl ∅ (set_ready false (set_listening false st)))))))).

(** [pendingQueue.pop()]: the last element *)
Definition pop (q : list frame) : option (frame * list frame) :=
  match rev q with
  | [] => None
  | x :: r => Some (x, rev r)
  end.

(** [while (pendingQueue.length) postMessage(pendingQueue.pop())], for at
    most [n] rounds *)
Fixpoint flush (n : nat) : M unit :=
  match n with
  | O => ret tt
  | S n' =>
      st <- get ;;
      match pop (pendingQueue st) with
      | None => ret tt
      | Some (msg, rest) =>
          modify (set_pendingQueue rest) ;;
          postMessage msg false ;;
          flush n'
      end
  end.

Definition is_ping (type : value) : bool :=
  match type with VStr s => bool_decide (s = "ping") | _ => false end.

(** [onReady(trans, type)] *)
Definition onReady (type : value) : M value :=
  st <- get ;;
  if ready st then
    throw (VStr "received ready message while in ready state.  help!")
  else
    (if is_ping type then
       modify (λ st, set_curTranId (curTranId st + Z.rem (curTranId st) 2)
                       (set_chanId (chanId st +:+ "-R") st))
     else
       modify (λ st, set_chanId (chanId st +:+ "-L") st)) ;;
    unbind "__ready" ;;
    modify (set_ready true) ;;
    when (is_ping type) (notify "__ready" (VStr "pong")) ;;
    st <- get ;;
    flush (length (pendingQueue st)) ;;
    st <- get ;;
    when (cfg_onReady st) (emit EOnReady) ;;
    ret VUndef.

(** ** Receiving *)

(** one round of the callback loop of [onMessage]: the synthetic function
    [f] is stored in [obj] under the path [pathItems], objects being
    created on the way; [None] is a TypeError or RangeError *)
Fixpoint install (obj : value) (pathItems : list string) (f : value) : option value :=
  match pathItems with
  | [] => Some obj
  | [last] => set_prop obj last f
  | cp :: rest =>
      child ← get_prop obj cp;
      if decide (typeof child = TyObject) then
        sub ← install child rest f;
        set_prop obj cp sub
      else
        obj1 ← set_prop obj cp (VObj []);
        child1 ← get_prop obj1 cp;
        sub ← install child1 rest f;
        set_prop obj1 cp sub
  end.

(** the loop over [m.callbacks]; the function stored under [path] calls
    [trans.invoke(path, params)] *)
Fixpoint install_callbacks (id : Z) (callbacks : list string) (todo : list string)
    (params : value) : option value :=
  match todo with
  | [] => Some params
  | path :: rest =>
      params1 ← install params (split_slash path) (VFun (Synth id callbacks path));
      install_callbacks id callbacks rest params1
  end.

(** the first half of the [catch] block: the value to serialise if no
    message is found, the error code and the message ([VNull] when none);
    [None] is the TypeError of reading [e.error] on [null] *)
Definition classify_thrown (e : value) : option (value * value * value) :=
  let error := VStr "runtime_error" in
  match typeof e with
  | TyString => Some (e, error, e)
  | TyObject =>
      match e with
      | VArr 2 ps => Some (e, assoc "0" ps, assoc "1" ps)
      | _ =>
          e_error ← get_prop e "error";
          if decide (typeof e_error = TyString) then
            e_message ← get_prop e "message";
            if negb (truthy e_message) then Some (e, e_error, VStr "")
            else if decide (typeof e_message = TyString) then Some (e, e_error, e_message)
            else Some (e_message, e_error, VNull)
          else Some (e, error, VNull)
      end
  | _ => Some (e, error, VNull)
  end.

(** [JSON.stringify(v)] raises: serialising enters a function found under
    the key [toJSON] of an object or of an Array, and that function raises.
    The members seen are those [JSON_stringify] prints. *)
Definition is_faulty (v : value) : bool :=
  match v with VFun (Faulty _) => true | _ => false end.

Fixpoint assoc_bool (k : string) (ps : list (string * bool)) : bool :=
  match ps with
  | [] => false
  | (k', b) :: t => if decide (k' = k) then b else assoc_bool k t
  end.

Fixpoint stringify_raises (v : value) : bool :=
  let fix members (ps : list (string * value)) : list (string * bool) :=
    match ps with
    | [] => []
    | (k, x) :: t => (k, stringify_raises x) :: members t
    end in
  match v with
  | VObj ps => is_faulty (assoc "toJSON" ps) || existsb snd (members ps)
  | VArr n ps =>
      is_faulty (assoc "toJSON" ps)
      || existsb (λ i : nat, assoc_bool (pretty i) (members ps)) (seq 0 n)
  | _ => false
  end.

(** [v] has an own property [k] *)
Definition has_key (k : string) (v : value) : bool :=
  match v with
  | VObj ps | VArr _ ps => existsb (λ kv : string * value, bool_decide (kv.1 = k)) ps
  | _ => false
  end.

(** the text of [v] where a string is wanted: an object gives the text of
    [Object.prototype.toString], an Array the join of its elements, [null]
    and [undefined] counting for nothing there *)
Fixpoint to_text (v : value) : string :=
  let fix members (ps : list (string * value)) : list (string * option string) :=
    match ps with
    | [] => []
    | (k, x) :: t =>
        (k, Some (match x with VUndef | VNull => EmptyString | _ => to_text x end))
          :: members t
    end in
  match v with
  | VUndef => "undefined"
  | VNull => "null"
  | VBool b => if b then "true" else "false"
  | VNum n => pretty n
  | VStr s => s
  | VFun _ => "function"    (* the source text, which is not modelled *)
  | VObj _ => "[object Object]"
  | VArr n ps =>
      join_comma (map (λ i : nat, default EmptyString (assoc_str (pretty i) (members ps)))
                      (seq 0 n))
  end.

(** [e.toString()]: an own [toString], when there is one, is what is
    called; [None] is the error of a function that raises, or the
    TypeError of calling what is no function *)
Definition toString_call (e : value) : option value :=
  if has_key "toString" e then
    match get_prop e "toString" with
    | Some (VFun (Local _)) => Some VUndef
    | _ => None
    end
  else Some (VStr (to_text e)).

(** the second half of the [catch] block (lines 260-266): the message when
    none was found, [JSON.stringify(e)] and, if that raises, [e.toString()] *)
Definition message_text (e : value) : option value :=
  if stringify_raises e then toString_call e
  else Some (match JSON_stringify e with Some s => VStr s | None => VUndef end).

(** the whole normalisation: the arguments given to [trans.error]; [None]
    is an error that leaves the [catch] block *)
Definition normalize_error (e : value) : option (value * value) :=
  c ← classify_thrown e;
  match c.2 with
  | VNull => message ← message_text c.1.1; Some (c.1.2, message)
  | message => Some (c.1.2, message)
  end.

(** the event given to the 'message' listener, its data already parsed *)
Record message_event := MessageEvent { e_origin : string; e_data : frame }.

(** the descoping at the head of [onMessage]: [None] drops the frame *)
Definition descope (scope : option string) (method : option string)
  : option (option string) :=
  if truthy_str method && truthy_str scope then
    match split_dcolon (default "" method) with
    | [a; b] => if bool_decide (Some a = scope) then Some (Some b) else None
    | _ => None
    end
  else Some method.

(** entering a function of [regTbl] *)
Definition run_handler (method : string) (h : handler) (t : option (Z * list string))
    (params : value) : M (value * tflags) :=
  let targ := match t with Some _ => TransObj | None => NullTrans end in
  emit (EHandle method targ params) ;;
  match h with
  | HReady => v <- onReady params ;; ret (v, TFlags false false)
  | HUser f => run_hprog t (TFlags false false) (f targ params)
  | HBuiltin b => v <- run_builtin b targ ;; ret (v, TFlags false false)
  end.

(** the [try ... catch] of the request branch *)
Definition request_body (id : Z) (method : string) (h : handler) (m : frame) : M unit :=
  let callbacks := default [] (f_callbacks m) in
  try_catch
    (params <- match install_callbacks id callbacks callbacks (f_params m) with
               | Some p => ret p
               | None => throw native_error
               end ;;
     r <- run_handler method h (Some (id, callbacks)) params ;;
     if negb (shouldDelayReturn r.2) && negb (completed r.2) then trans_complete id r.1
     else ret tt)
    (λ e,
       match normalize_error e with
       | Some (error, message) => trans_error id error message
       | None => throw native_error
       end).

(** the request branch, once a handler [h] is found *)
Definition handle_request (id : Z) (method : string) (h : handler) (m : frame) : M unit :=
  modify (λ st, set_tranTbl (<[id := TIn]> (tranTbl st)) st) ;;
  request_body id method h m.

(** the progress branch *)
Definition handle_callback (id : Z) (cbName : string) (m : frame) : M unit :=
  st <- get ;;
  match tranTbl st !! id with
  | Some (TOut r) =>
      match o_callbacks r !! cbName with
      | Some f => enter f [f_params m]
      | None =>
          match Object_prototype cbName with
          | Some b => if builtin_raises b then throw native_error else ret tt
          | None => ret tt
          end
      end
  | _ => ret tt
  end.

(** the final-response branch *)
Definition handle_response (id : Z) (m : frame) : M unit :=
  st <- get ;;
  match tranTbl st !! id with
  | Some (TOut r) =>
      (if truthy (f_error m) then
         match o_error r with
         | Some f => enter f [f_error m; f_message m]
         | None => throw native_error
         end
       else enter (o_success r) [f_result m]) ;;
      modify (λ st, set_tranTbl (delete id (tranTbl st)) st)
  | _ => ret tt
  end.

(** the notification branch *)
Definition handle_notification (method : string) (m : frame) : M unit :=
  st <- get ;;
  match reg_get (regTbl st) method with
  | Some h => run_handler method h None (f_params m) ;; ret tt
  | None => ret tt
  end.

(** [onMessage(e)] *)
Definition onMessage (e : message_event) : M unit :=
  st <- get ;;
  if bool_decide (cfg_origin st ≠ Some "*") && bool_decide (cfg_origin st ≠ Some (e_origin e))
  then ret tt
  else
    let m := e_data e in
    match descope (cfg_scope st) (f_method m) with
    | None => ret tt
    | Some unscopedMethod =>
        when (cfg_gotMessageObserver st) (emit (EGotObserver (e_origin e) (wire m))) ;;
        let id := default 0 (f_id m) in
        let method := default "" unscopedMethod in
        let callback := default "" (f_callback m) in
        if truthy_num (f_id m) && truthy_str unscopedMethod then
          match reg_get (regTbl st) method with
          | Some h => handle_request id method h m
          | None => ret tt
          end
        else if truthy_num (f_id m) && truthy_str (f_callback m) then
          handle_callback id callback m
        else if truthy_num (f_id m)
                && (negb (is_undef (f_result m)) || truthy (f_error m)) then
          handle_response id m
        else if truthy_str unscopedMethod then
          handle_notification method m
        else ret tt
    end.

(** ** Construction *)

Fixpoint strip_prefix (p s : string) : option string :=
  match p, s with
  | EmptyString, _ => Some s
  | String a p', String b s' => if decide (a = b) then strip_prefix p' s' else None
  | String _ _, EmptyString => None
  end.

Fixpoint take_while (f : ascii → bool) (s : string) : string * string :=
  match s with
  | EmptyString => (EmptyString, EmptyString)
  | String c r =>
      if f c then let t := take_while f r in (String c t.1, t.2)
      else (EmptyString, s)
  end.

Definition is_digit (c : ascii) : bool :=
  let n := N_of_ascii c in ((48 <=? n) && (n <=? 57))%N.

(** the class [[-a-zA-Z0-9\.]] *)
Definition is_host_char (c : ascii) : bool :=
  let n := N_of_ascii c in
  ((n =? 45) || (n =? 46) || is_digit c
   || ((97 <=? n) && (n <=? 122)) || ((65 <=? n) && (n <=? 90)))%N.

(** [cfg.origin.match(/^https?:\/\/(?:[-a-zA-Z0-9\.])+(?::\d+)?/)]: the
    matched prefix *)
Definition match_origin (s : string) : option string :=
  let after_scheme :=
    match strip_prefix "https://" s with
    | Some r => Some ("https://", r)
    | None =>
        match strip_prefix "http://" s with
        | Some r => Some ("http://", r)
        | None => None
        end
    end in
  match after_scheme with
  | None => None
  | Some (scheme, r) =>
      let h := take_while is_host_char r in
      if bool_decide (h.1 = "") then None
      else
        let port :=
          match h.2 with
          | String c r' =>
              if decide (c = ":"%char) then
                let d := take_while is_digit r' in
                if bool_decide (d.1 = "") then "" else ":" +:+ d.1
              else ""
          | EmptyString => ""
          end in
        Some (scheme +:+ h.1 +:+ port)
  end.

(** the configuration given to [Channel.build]; [b_origin] is [None] when
    [cfg.origin] is not a string *)
Record config := Config {
  b_origin : option string;
  b_scope : option string;
  b_postMessageObserver : bool;
  b_gotMessageObserver : bool;
  b_onReady : bool
}.

(** [Channel.build(cfg)] in a capable browser with a valid target window.
    [random] is the value of [Math.floor(Math.random()*1000001)] and [token]
    the five random characters of [chanId].  The ping of the [setTimeout]
    is [send_ping]. *)
Definition build (cfg : config) (random : Z) (token : string) : outcome chan :=
  let origin :=
    match b_origin cfg with
    | Some o => if bool_decide (o = "*") then Some o else match_origin o
    | None => None
    end in
  match origin with
  | None => Throw (VStr "Channel.build() called with an invalid origin")
  | Some o =>
      if match b_scope cfg with
         | Some sc => bool_decide (1 < length (split_dcolon sc))%nat
         | None => false
         end
      then Throw (VStr "scope may not contain double colons: '::'")
      else
        Ok (Chan (Some o) (b_scope cfg) (b_postMessageObserver cfg)
              (b_gotMessageObserver cfg) (b_onReady cfg) token
              {[ "__ready" := HReady ]} ∅ (Z.lor random 1) false [] true)
  end.

(** the function given to [setTimeout] by [Channel.build] *)
Definition send_ping : M unit :=
  st <- get ;;
  postMessage (notification_frame (scopeMethod (cfg_scope st) "__ready") (VStr "ping")) true.

(** ** Two windows

    Two windows, each of which may run [Channel.build] towards the other.
    A posted message travels to the other window and is given to its
    listener later; a window without a listener loses it. *)

Inductive side := SideA | SideB.

Definition other (s : side) : side :=
  match s with SideA => SideB | SideB => SideA end.

(** what the application does with the object returned by [build], and
    with a transaction object it kept *)
Inductive api_op :=
| OBind (method : string) (h : trans_arg → value → hprog)
| OUnbind (method : string)
| OCall (m : call_args)
| ONotify (method : string) (params : value)
| ODestroy
| OTransInvoke (id : Z) (callbacks : list string) (cbName : string) (v : value)
| OTransComplete (id : Z) (v : value)
| OTransError (id : Z) (error message : value).

Definition run_op (o : api_op) : M unit :=
  match o with
  | OBind method h => bind method (HUser h)
  | OUnbind method => unbind method ;; ret tt
  | OCall m => call m
  | ONotify method params => notify method params
  | ODestroy => destroy
  | OTransInvoke id callbacks cbName v => trans_invoke id callbacks cbName v
  | OTransComplete id v => trans_complete id v
  | OTransError id error message => trans_error id error message
  end.

Record window := Window {
  w_origin : string;              (* the origin of the document *)
  w_chan : option chan;           (* the channel, once built *)
  w_timer : bool;                 (* the [setTimeout] of [build] is pending *)
  w_inbox : list message_event;   (* messages on their way to the window *)
  w_log : list event              (* what its channel did, oldest first *)
}.

Record world := World { win_A : window; win_B : window }.

Definition win (s : side) (w : world) : window :=
  match s with SideA => win_A w | SideB => win_B w end.

Definition set_win (s : side) (x : window) (w : world) : world :=
  match s with
  | SideA => World x (win_B w)
  | SideB => World (win_A w) x
  end.

(** the messages among [evs] that the browser lets through to a window of
    origin [target], as events for its listener *)
Fixpoint deliveries (sender target : string) (evs : list event) : list message_event :=
  match evs with
  | [] => []
  | EPost (Some o) msg :: t =>
      if bool_decide (o = "*") || bool_decide (o = target)
      then MessageEvent sender (wire msg) :: deliveries sender target t
      else deliveries sender target t
  | _ :: t => deliveries sender target t
  end.

(** channel code run in window [s]; an exception it lets escape is lost
    in the event loop *)
Definition run_in (s : side) (m : M unit) (w : world) : world :=
  let x := win s w in
  match w_chan x with
  | None => w
  | Some c =>
      let r := m c in
      let y := win (other s) w in
      let w1 := set_win s (Window (w_origin x) (Some (st_of r)) (w_timer x) (w_inbox x)
                             (w_log x ++ events_of r)) w in
      set_win (other s)
        (Window (w_origin y) (w_chan y) (w_timer y)
           (w_inbox y ++ deliveries (w_origin x) (w_origin y) (events_of r)) (w_log y)) w1
  end.

Inductive action :=
| ABuild (s : side) (cfg : config) (random : Z) (token : string)
| ATimer (s : side)       (* the timer of [build] fires *)
| ADeliver (s : side)     (* the oldest message on its way to [s] arrives *)
| AOp (s : side) (o : api_op).

Definition step (a : action) (w : world) : world :=
  match a with
  | ABuild s cfg random token =>
      let x := win s w in
      match w_chan x, build cfg random token with
      | None, Ok c => set_win s (Window (w_origin x) (Some c) true (w_inbox x) (w_log x)) w
      | _, _ => w
      end
  | ATimer s =>
      let x := win s w in
      if w_timer x then
        run_in s send_ping
          (set_win s (Window (w_origin x) (w_chan x) false (w_inbox x) (w_log x)) w)
      else w
  | ADeliver s =>
      let x := win s w in
      match w_inbox x with
      | [] => w
      | e :: rest =>
          let w1 := set_win s (Window (w_origin x) (w_chan x) (w_timer x) rest (w_log x)) w in
          match w_chan x with
          | Some c => if listening c then run_in s (onMessage e) w1 else w1
          | None => w1
          end
      end
  | AOp s o => run_in s (run_op o) w
  end.

Definition run (tr : list action) (w : world) : world := fold_left (λ w a, step a w) tr w.

Definition start (originA originB : string) : world :=
  World (Window originA None false [] []) (Window originB None false [] []).

(** the ids of the requests a window posted, oldest first *)
Fixpoint request_ids (evs : list event) : list Z :=
  match evs with
  | [] => []
  | EPost _ (Frame (Some id) (Some _) _ _ _ _ _ _) :: t => id :: request_ids t
  | _ :: t => request_ids t
  end.

(** the messages a window posted, oldest first *)
Fixpoint posted (evs : list event) : list frame :=
  match evs with
  | [] => []
  | EPost _ msg :: t => msg :: posted t
  | _ :: t => posted t
  end.

(** the application functions entered, oldest first *)
Fixpoint applied (evs : list event) : list (callable * list value) :=
  match evs with
  | [] => []
  | EApply f args :: t => (f, args) :: applied t
  | _ :: t => applied t
  end.

(** the bound functions entered, oldest first *)
Fixpoint handled (evs : list event) : list (string * trans_arg * value) :=
  match evs with
  | [] => []
  | EHandle method t params :: rest => (method, t, params) :: handled rest
  | _ :: rest => handled rest
  end.


(** * Specification-side definitions *)

Definition post_events (st : chan) (msg : frame) : list event :=
  (if cfg_postMessageObserver st then [EPostObserver (cfg_origin st) msg] else [])
  ++ [EPost (cfg_origin st) msg].

Definition got_events (st : chan) (e : message_event) : list event :=
  if cfg_gotMessageObserver st then [EGotObserver (e_origin e) (wire (e_data e))] else [].

Definition origin_accepted (st : chan) (e : message_event) : Prop :=
  cfg_origin st = Some "*" ∨ cfg_origin st = Some (e_origin e).

Definition prepend {A} (ev : list event) (r : outcome A * chan * list event)
  : outcome A * chan * list event :=
  (r.1.1, r.1.2, ev ++ r.2).

(** the state [onReady] leaves behind *)
Definition after_ready (ping : bool) (st : chan) : chan :=
  set_pendingQueue [] (set_ready true (set_regTbl (delete "__ready" (regTbl st))
    (if ping then set_curTranId (curTranId st + Z.rem (curTranId st) 2)
                    (set_chanId (chanId st +:+ "-R") st)
     else set_chanId (chanId st +:+ "-L") st))).

(** and what it emits *)
Definition ready_events (ping : bool) (st : chan) : list event :=
  (if ping then post_events (after_ready ping st)
                  (notification_frame (scopeMethod (cfg_scope st) "__ready") (VStr "pong"))
   else [])
  ++ concat (map (post_events (after_ready ping st)) (rev (pendingQueue st)))
  ++ (if cfg_onReady st then [EOnReady] else []).

(** an inbound frame that does not match the state of the channel: a request
    for a method that [regTbl] holds neither as a bound nor as an inherited
    property, a progress frame or a final response whose id is unknown or
    keys a transaction of the wrong direction, a progress frame for a
    callback that the call did not declare and that is no inherited name *)
Inductive mismatch (st : chan) (m : frame) : Prop :=
| mismatch_request (id : Z) (method : string) :
    f_id m = Some id → id ≠ 0 →
    descope (cfg_scope st) (f_method m) = Some (Some method) → method ≠ "" →
    reg_get (regTbl st) method = None →
    mismatch st m
| mismatch_progress (id : Z) (cbName : string) :
    f_id m = Some id → id ≠ 0 →
    truthy_str (f_method m) = false →
    f_callback m = Some cbName → cbName ≠ "" →
    (tranTbl st !! id = None
     ∨ tranTbl st !! id = Some TIn
     ∨ ∃ r, tranTbl st !! id = Some (TOut r) ∧ o_callbacks r !! cbName = None
            ∧ Object_prototype cbName = None) →
    mismatch st m
| mismatch_response (id : Z) :
    f_id m = Some id → id ≠ 0 →
    truthy_str (f_method m) = false →
    truthy_str (f_callback m) = false →
    f_result m ≠ VUndef ∨ truthy (f_error m) = true →
    (tranTbl st !! id = None ∨ tranTbl st !! id = Some TIn) →
    mismatch st m.


(** what a bound function's program returns or raises when it was given
    [null] for a transaction object: every method call on it is a TypeError *)
Fixpoint run_null (p : hprog) : outcome value :=
  match p with
  | HReturn v => Ok v
  | HThrow e => Throw e
  | HInvoke _ _ k => run_null (k (Throw native_error))
  | HError _ _ k => run_null (k (Throw native_error))
  | HComplete _ k => run_null (k (Throw native_error))
  | HDelayReturn _ k => run_null (k (Throw native_error))
  | HCompleted k => run_null (k (Throw native_error))
  end.


(** what reaches one channel: a message event for its listener, or the
    application using the channel object *)
Inductive input :=
| IMessage (e : message_event)
| IOp (o : api_op).

Definition feed (i : input) : M unit :=
  match i with
  | IMessage e => st <- get ;; if listening st then onMessage e else ret tt
  | IOp o => run_op o
  end.

(** the inputs are handled one after the other; an exception that escapes
    one of them does not stop the next *)
Fixpoint feed_all (l : list input) (st : chan) : chan * list event :=
  match l with
  | [] => (st, [])
  | i :: t =>
      let r := feed i st in
      let r' := feed_all t (st_of r) in
      (r'.1, events_of r ++ r'.2)
  end.

(** a channel that cannot send: it is not ready and accepts no origin *)
Definition silenced (st : chan) : Prop := ready st = false ∧ cfg_origin st = None.


(** [f] is one of the functions the outbound record [r] holds *)
Definition cont_of (r : out_tran) (f : callable) : Prop :=
  f = o_success r ∨ o_error r = Some f ∨ ∃ path, o_callbacks r !! path = Some f.

(** some open outbound transaction of [st] holds [f] *)
Definition referenced (st : chan) (f : callable) : Prop :=
  ∃ id r, tranTbl st !! id = Some (TOut r) ∧ cont_of r f.

(** the application hands [f] to the channel *)
Definition op_passes (f : callable) (o : api_op) : Prop :=
  match o with
  | OCall m =>
      c_success m = Some f ∨ c_error m = Some f
      ∨ ∃ path, (path, f) ∈ (pruneFunctions "" (c_params m)).2
  | _ => False
  end.

(** every outbound record of [st'] is one of [st] *)
Definition tout_le (st st' : chan) : Prop :=
  ∀ id r, tranTbl st' !! id = Some (TOut r) → tranTbl st !! id = Some (TOut r).

(** a run that opens no outbound transaction and enters no function given
    to [call] *)
Definition quiet_at {A} (m : M A) (st : chan) : Prop :=
  tout_le st (st_of (m st)) ∧ applied (events_of (m st)) = [].


(** a run that opens no outbound transaction, and enters only functions
    that an open outbound transaction holds *)
Definition tame_at {A} (m : M A) (st : chan) : Prop :=
  tout_le st (st_of (m st))
  ∧ ∀ f args, (f, args) ∈ applied (events_of (m st)) → referenced st f.










(** the own enumerable properties of [v] *)
Definition props_of (v : value) : list (string * value) :=
  match v with
  | VObj ps | VArr _ ps => ps
  | _ => []
  end.

(** the value under the key [k] of [v] ([undefined] when there is none) *)
Definition child (k : string) (v : value) : value := assoc k (props_of v).









(** the walk of [pruneFunctions] over the properties of an object *)
Fixpoint prune_props (path : string) (ps : list (string * value))
  : list (string * value) * list (string * callable) :=
  match ps with
  | [] => ([], [])
  | (k, x) :: t =>
      let np := sub_path path k in
      match x with
      | VFun f => let r := prune_props path t in (r.1, (np, f) :: r.2)
      | VUndef | VBool _ | VNum _ | VStr _ =>
          let r := prune_props path t in ((k, x) :: r.1, r.2)
      | VNull | VObj _ | VArr _ _ =>
          let rx := pruneFunctions np x in
          let r := prune_props path t in ((k, rx.1) :: r.1, rx.2 ++ r.2)
      end
  end.

Definition jsonify_props (ps : list (string * value)) : list (string * value) :=
  map (λ kv, (kv.1, jsonify kv.2)) ps.

(** [obj[k]] can be read and written: [obj] is an object, and [k] is not
    the length of an Array *)
Definition passable (k : string) (T : value) : Prop :=
  match T with
  | VObj _ => True
  | VArr _ _ => k ≠ "length"
  | _ => False
  end.

(** the walk of [install] along [ks] meets no [null] and no Array length *)
Fixpoint installable (ks : list string) (T : value) : Prop :=
  match ks with
  | [] => False
  | k :: ks' =>
      passable k T
      ∧ match ks' with
        | [] => True
        | _ => child k T ≠ VNull
               ∧ (typeof (child k T) = TyObject → installable ks' (child k T))
        end
  end.

(** [q] lies strictly below [ks] *)
Definition below (q ks : list string) : Prop := ∃ rest, rest ≠ [] ∧ q = ks ++ rest.

Definition is_node (v : value) : bool :=
  match v with VObj _ | VArr _ _ => true | _ => false end.

(** no object of the tree has an own property named hasOwnProperty or
    __proto__: the test [obj.hasOwnProperty(k)] of [pruneFunctions] is the
    inherited one, and recording a function under its path does not touch
    the prototype of the callbacks *)
Fixpoint walkable (v : value) : bool :=
  match v with
  | VObj ps | VArr _ ps =>
      forallb (λ kv, negb (bool_decide (kv.1 = "hasOwnProperty"))
                     && negb (bool_decide (kv.1 = "__proto__")) && walkable kv.2) ps
  | _ => true
  end.

(** the request [call] builds *)
Definition call_frame (st : chan) (m : call_args) : frame :=
  let pruned := pruneFunctions "" (c_params m) in
  let callbackNames := map fst pruned.2 in
  request_frame (curTranId st) (scopeMethod (cfg_scope st) (c_method m)) pruned.1
    (match callbackNames with [] => None | _ => Some callbackNames end).

(** the channel after [call] *)
Definition after_call (st : chan) (m : call_args) (success : callable) : chan :=
  set_curTranId (curTranId st + 2)
    (set_tranTbl
       (<[curTranId st :=
            TOut (OutTran (callbacks_of (pruneFunctions "" (c_params m)).2) (c_error m) success)]>
          (tranTbl st)) st).



(** a channel as [build] leaves it: target origin [o], counter [n] *)
Definition fresh_chan (o : string) (n : Z) : chan :=
  Chan (Some o) None false false false "abcde" {[ "__ready" := HReady ]} ∅ n false [] true.

(** a channel after the handshake, with the bound functions [reg] *)
Definition ready_chan (o : string) (n : Z) (reg : gmap string handler) : chan :=
  Chan (Some o) None false false false "abcde-L" reg ∅ n true [] true.

Definition ping_event : message_event :=
  MessageEvent "https://b.example" (notification_frame "__ready" (VStr "ping")).

Definition pong_event : message_event :=
  MessageEvent "https://b.example" (notification_frame "__ready" (VStr "pong")).

Definition cfg_to (o : string) : config := Config (Some o) None false false false.

Definition two_windows : world := start "https://a.example" "https://b.example".

(** both windows build their channel before either timer fires: each ping
    finds the other side listening *)
Definition crossed_handshake_of (ra rb : Z) : list action :=
  [ABuild SideA (cfg_to "https://b.example") ra "aaaaa";
   ABuild SideB (cfg_to "https://a.example") rb "bbbbb";
   ATimer SideA; ATimer SideB;
   ADeliver SideB; ADeliver SideA;      (* the two pings *)
   ADeliver SideB; ADeliver SideA].     (* the two pongs *)

Definition crossed_handshake : list action := crossed_handshake_of 4 10.

(** window A builds first and its ping is lost; it is window B's ping that
    starts the handshake *)
Definition sequential_handshake : list action :=
  [ABuild SideA (cfg_to "https://b.example") 4 "aaaaa";
   ATimer SideA; ADeliver SideB;
   ABuild SideB (cfg_to "https://a.example") 10 "bbbbb";
   ATimer SideB;
   ADeliver SideA;                      (* the ping of B *)
   ADeliver SideB].                     (* the pong of A *)

Definition some_call : api_op :=
  OCall (CallArgs "echo" (VObj [("x", VNum 1)]) (Some (Local "done")) None).

(** window A notifies twice before the handshake *)
Definition early_sends : list action :=
  [ABuild SideA (cfg_to "https://b.example") 4 "aaaaa";
   ATimer SideA; ADeliver SideB;
   AOp SideA (ONotify "first" (VNum 1));
   AOp SideA (ONotify "second" (VNum 2));
   ABuild SideB (cfg_to "https://a.example") 10 "bbbbb";
   ATimer SideB;
   ADeliver SideA].

Definition echo : trans_arg → value → hprog := λ _ params, HReturn params.

Definition thrower (e : value) : trans_arg → value → hprog := λ _ _, HThrow e.

Definition request_event (id : Z) (method : string) (params : value) : message_event :=
  MessageEvent "https://b.example" (request_frame id method params None).

Definition foreign_event : message_event :=
  MessageEvent "https://y.example" (request_frame 3 "__ready" (VStr "ping") None).

(** a channel with one outbound call (id 5) in flight, which declared the
    callback path cb, and the function echo bound *)
Definition busy_chan : chan :=
  Chan (Some "https://b.example") None false false false "abcde-L"
    {[ "echo" := HUser echo ]}
    {[ 5 := TOut (OutTran {[ "cb" := Local "progress" ]} (Some (Local "failed"))
                    (Local "done")) ]}
    7 true [] true.

(** what the peer is sent when the handler of m throws [x] *)
Definition error_sent (x : value) : list frame :=
  posted (events_of (onMessage (request_event 4 "m" VNull)
                       (ready_chan "https://b.example" 7 {[ "m" := HUser (thrower x) ]}))).

Definition note_event : message_event :=
  MessageEvent "https://b.example" (notification_frame "note" (VNum 1)).

(** the caller and the peer of the callback scenarios, after the handshake *)
Definition caller : chan := ready_chan "https://b.example" 7 ∅.
Definition peer : chan := ready_chan "https://a.example" 8 {[ "stream" := HUser echo ]}.

Definition stream_call (params : value) : call_args :=
  CallArgs "stream" params (Some (Local "done")) None.

(** the request of [stream_call params], as it reaches the peer *)
Definition stream_request (params : value) : message_event :=
  MessageEvent "https://a.example" (wire (call_frame caller (stream_call params))).

(** the progress frame for [path], as it reaches the caller *)
Definition stream_progress (path : string) : message_event :=
  MessageEvent "https://b.example" (wire (progress_frame 7 path (VNum 1))).



Definition named_callback : value :=
  VObj [("cb", VFun (Local "progress")); ("opts", VObj [("n", VNum 1)])].

Definition streamer : trans_arg → value → hprog := λ _ _,
  HInvoke "cb" (VObj [("n", VNum 1)]) (λ _,
  HInvoke "cb" (VObj [("n", VNum 2)]) (λ _,
  HReturn (VStr "done"))).

Definition delayer : trans_arg → value → hprog := λ _ _,
  HDelayReturn (VBool true) (λ _, HReturn VUndef).

(** the scenarios S1 to S4 of the specification, window A calling window B *)
Definition scenario_echo : list action :=
  sequential_handshake
  ++ [AOp SideB (OBind "echo" echo); AOp SideA some_call; ADeliver SideB; ADeliver SideA].

Definition scenario_progress : list action :=
  sequential_handshake
  ++ [AOp SideB (OBind "stream" streamer);
      AOp SideA (OCall (CallArgs "stream" (VObj [("cb", VFun (Local "f"))])
                          (Some (Local "done")) None));
      ADeliver SideB; ADeliver SideA; ADeliver SideA; ADeliver SideA].

Definition scenario_delayed : list action :=
  sequential_handshake
  ++ [AOp SideB (OBind "slow" delayer);
      AOp SideA (OCall (CallArgs "slow" VNull (Some (Local "done")) None));
      ADeliver SideB; ADeliver SideA].

Definition scenario_thrown : list action :=
  sequential_handshake
  ++ [AOp SideB (OBind "bad" (thrower (VStr "boom")));
      AOp SideA (OCall (CallArgs "bad" VNull (Some (Local "done")) (Some (Local "failed"))));
      ADeliver SideB; ADeliver SideA].

(** * Further scenarios *)


(** the peer of the scenarios with one function bound *)
Definition server (method : string) (h : trans_arg → value → hprog) : chan :=
  ready_chan "https://b.example" 8 {[ method := HUser h ]}.

(** the listener returns normally and the event leaves no trace: the
    channel is unchanged, no frame is posted and no function is entered *)
Definition dropped (st : chan) (e : message_event) : Prop :=
  let r := onMessage e st in
  result_of r = Ok tt ∧ st_of r = st
  ∧ posted (events_of r) = [] ∧ applied (events_of r) = [] ∧ handled (events_of r) = [].

(** no function anywhere in [v] *)
Fixpoint function_free (v : value) : bool :=
  match v with
  | VFun _ => false
  | VObj ps | VArr _ ps => forallb (λ kv, function_free kv.2) ps
  | _ => true
  end.

(** the number of functions in [v] *)
Fixpoint count_functions (v : value) : nat :=
  match v with
  | VFun _ => 1%nat
  | VObj ps | VArr _ ps => list_sum (map (λ kv, count_functions kv.2) ps)
  | _ => 0%nat
  end.

(** the ids [n] successive calls take from a counter at [c] *)
Fixpoint ids_from (c : Z) (n : nat) : list Z :=
  match n with
  | O => []
  | S n' => c :: ids_from (c + 2) n'
  end.

(** the arguments pass the checks at the head of [call] *)
Definition valid_call (m : call_args) : Prop := c_method m ≠ "" ∧ is_Some (c_success m).

(** [s] holds two colons in a row *)
Fixpoint has_dcolon (s : string) : bool :=
  match s with
  | EmptyString => false
  | String c r =>
      match r with
      | EmptyString => false
      | String c' _ => (bool_decide (c = ":"%char) && bool_decide (c' = ":"%char)) || has_dcolon r
      end
  end.

(** the last character of [s] is a colon *)
Fixpoint ends_with_colon (s : string) : bool :=
  match s with
  | EmptyString => false
  | String c EmptyString => bool_decide (c = ":"%char)
  | String _ r => ends_with_colon r
  end.

(** the configuration of a channel, which only [build] and [destroy] write *)
Definition same_settings (st st' : chan) : Prop :=
  cfg_origin st' = cfg_origin st ∧ cfg_scope st' = cfg_scope st
  ∧ cfg_postMessageObserver st' = cfg_postMessageObserver st
  ∧ cfg_gotMessageObserver st' = cfg_gotMessageObserver st
  ∧ cfg_onReady st' = cfg_onReady st ∧ listening st' = listening st.

(** the registry, the counter, the identity and the ready flag *)
Definition same_registry (st st' : chan) : Prop :=
  regTbl st' = regTbl st ∧ curTranId st' = curTranId st
  ∧ chanId st' = chanId st ∧ ready st' = ready st.

(** what [ev] posts, and shows to the post observer, goes to [o] *)
Definition posts_to (o : option string) (ev : event) : Prop :=
  match ev with
  | EPost o' _ | EPostObserver o' _ => o' = o
  | _ => True
  end.

(** a run that keeps the configuration, posts to the configured origin
    only and, on a ready channel, keeps the registry, the counter, the
    identity and the ready flag *)
Definition steady_at {A} (m : M A) (st : chan) : Prop :=
  same_settings st (st_of (m st))
  ∧ Forall (posts_to (cfg_origin st)) (events_of (m st))
  ∧ (ready st = true → same_registry st (st_of (m st))).
(** * Properties *)

Lemma prepend_nil {A} (r : outcome A * chan * list event) : prepend [] r = r.
Proof. by destruct r as [[? ?] ?]. Qed.

Lemma prepend_prepend {A} ev1 ev2 (r : outcome A * chan * list event) :
  prepend ev1 (prepend ev2 r) = prepend (ev1 ++ ev2) r.
Proof. destruct r as [[? ?] ?]. unfold prepend; cbn. by rewrite app_assoc. Qed.

Lemma prepend_ret {A} ev (a : A) st : prepend ev (ret a st) = (Ok a, st, ev).
Proof. unfold prepend, ret; cbn. by rewrite app_nil_r. Qed.

Lemma prepend_pair {A} ev (r : outcome A) st ev' :
  prepend ev (r, st, ev') = (r, st, ev ++ ev').
Proof. reflexivity. Qed.

Section Monad.
Context {A B : Type}.
Implicit Types (m : M A) (k : A → M B) (st : chan).

Lemma seqM_ok m k st a st1 ev1 :
  m st = (Ok a, st1, ev1) → seqM m k st = prepend ev1 (k a st1).
Proof. intros H. unfold seqM. rewrite H. by destruct (k a st1) as [[? ?] ?]. Qed.

Lemma seqM_raise m k st e st1 ev1 :
  m st = (Throw e, st1, ev1) → seqM m k st = (Throw e, st1, ev1).
Proof. intros H. unfold seqM. by rewrite H. Qed.

Lemma seqM_ret a k st : seqM (ret a) k st = k a st.
Proof. erewrite seqM_ok by reflexivity. apply prepend_nil. Qed.

Lemma seqM_throw e k st : seqM (@throw A e) k st = (Throw e, st, []).
Proof. reflexivity. Qed.
End Monad.

Lemma seqM_assoc {A B C} (m : M A) (k : A → M B) (k' : B → M C) st :
  seqM (seqM m k) k' st = seqM m (λ a, seqM (k a) k') st.
Proof.
  unfold seqM. destruct (m st) as [[[a|e] st1] ev1]; [|reflexivity].
  destruct (k a st1) as [[[b|e] st2] ev2]; [|reflexivity].
  destruct (k' b st2) as [[r st3] ev3]. by rewrite app_assoc.
Qed.



Lemma seqM_get {B} (k : chan → M B) st : seqM get k st = k st st.
Proof. erewrite seqM_ok by reflexivity. apply prepend_nil. Qed.

Lemma seqM_modify {B} f (k : unit → M B) st : seqM (modify f) k st = k tt (f st).
Proof. erewrite seqM_ok by reflexivity. apply prepend_nil. Qed.

Lemma seqM_emit {B} e (k : unit → M B) st : seqM (emit e) k st = prepend [e] (k tt st).
Proof. by erewrite seqM_ok by reflexivity. Qed.

Lemma seqM_when_true {B} m (k : unit → M B) st : seqM (when true m) k st = seqM m k st.
Proof. reflexivity. Qed.

Lemma seqM_when_false {B} m (k : unit → M B) st : seqM (when false m) k st = k tt st.
Proof. apply seqM_ret. Qed.

Ltac mstep :=
  first [ rewrite seqM_get | rewrite seqM_modify | rewrite seqM_ret
        | rewrite seqM_emit | rewrite seqM_throw
        | rewrite seqM_when_true | rewrite seqM_when_false ].

Lemma postMessage_ready msg force st :
  ready st = true → postMessage msg force st = (Ok tt, st, post_events st msg).
Proof.
  intros Hr. unfold postMessage. mstep. rewrite Hr, andb_false_r.
  unfold post_events. destruct (cfg_postMessageObserver st); reflexivity.
Qed.

Lemma postMessage_forced msg st :
  postMessage msg true st = (Ok tt, st, post_events st msg).
Proof.
  unfold postMessage. mstep. cbn.
  unfold post_events. destruct (cfg_postMessageObserver st); reflexivity.
Qed.

Lemma postMessage_queued msg st :
  ready st = false →
  postMessage msg false st = (Ok tt, set_pendingQueue (pendingQueue st ++ [msg]) st, []).
Proof. intros Hr. unfold postMessage. mstep. rewrite Hr. reflexivity. Qed.

Lemma posted_app a b : posted (a ++ b) = posted a ++ posted b.
Proof. induction a as [|[] a IH]; cbn; rewrite ?IH; reflexivity. Qed.
Lemma applied_app a b : applied (a ++ b) = applied a ++ applied b.
Proof. induction a as [|[] a IH]; cbn; rewrite ?IH; reflexivity. Qed.
Lemma handled_app a b : handled (a ++ b) = handled a ++ handled b.
Proof. induction a as [|[] a IH]; cbn; rewrite ?IH; reflexivity. Qed.

Lemma posted_post_events st msg : posted (post_events st msg) = [msg].
Proof. unfold post_events. destruct (cfg_postMessageObserver st); reflexivity. Qed.
Lemma applied_post_events st msg : applied (post_events st msg) = [].
Proof. unfold post_events. destruct (cfg_postMessageObserver st); reflexivity. Qed.
Lemma handled_post_events st msg : handled (post_events st msg) = [].
Proof. unfold post_events. destruct (cfg_postMessageObserver st); reflexivity. Qed.

Lemma pop_snoc q x : pop (q ++ [x]) = Some (x, q).
Proof. unfold pop. rewrite rev_app_distr. cbn. by rewrite rev_involutive. Qed.

(** the flush empties the queue, newest message first *)
Lemma flush_ready n st :
  ready st = true → (length (pendingQueue st) ≤ n)%nat →
  flush n st
  = (Ok tt, set_pendingQueue [] st, concat (map (post_events st) (rev (pendingQueue st)))).
Proof.
  revert st. induction n as [|n IH]; intros st Hr Hn.
  - destruct st as [? ? ? ? ? ? ? ? ? ? q ?]; cbn in *. destruct q; [reflexivity | cbn in Hn; lia].
  - destruct st as [o sc po go onr ci rt tt_ ct rd q li]; cbn in Hr, Hn. subst rd.
    destruct q as [|x q _] using rev_ind.
    + reflexivity.
    + cbn [flush]. mstep. cbn [pendingQueue]. rewrite pop_snoc. mstep.
      erewrite seqM_ok by (by apply postMessage_ready).
      rewrite IH; [| reflexivity | cbn; rewrite length_app in Hn; cbn in Hn; lia].
      rewrite rev_app_distr. reflexivity.
Qed.

Lemma origin_accepted_check st e :
  origin_accepted st e →
  bool_decide (cfg_origin st ≠ Some "*") && bool_decide (cfg_origin st ≠ Some (e_origin e)) = false.
Proof.
  intros [H|H]; rewrite H.
  - rewrite bool_decide_eq_false_2; [reflexivity | intros X; by apply X].
  - rewrite (bool_decide_eq_false_2 (_ ≠ Some (e_origin e))); [apply andb_false_r | intros X; by apply X].
Qed.

Lemma rem2_parity c : Z.odd (c + Z.rem c 2) = false.
Proof.
  pose proof (Z.quot_rem' c 2) as H.
  replace (c + Z.rem c 2) with (2 * (Z.quot c 2 + Z.rem c 2)) by lia.
  rewrite Z.odd_mul. reflexivity.
Qed.

Lemma reg_get_own tbl name h : tbl !! name = Some h → reg_get tbl name = Some h.
Proof. intros H. unfold reg_get. by rewrite H. Qed.

Lemma reg_get_None tbl name :
  reg_get tbl name = None ↔ tbl !! name = None ∧ Object_prototype name = None.
Proof.
  unfold reg_get. destruct (tbl !! name); [by split; [|intros []]|].
  destruct (Object_prototype name); cbn; by split; [|intros []].
Qed.

Lemma reg_get_inherited tbl name b :
  tbl !! name = None → Object_prototype name = Some b → reg_get tbl name = Some (HBuiltin b).
Proof. intros H1 H2. unfold reg_get. by rewrite H1, H2. Qed.

Lemma unbind_bound method h st :
  regTbl st !! method = Some h →
  unbind method st = (Ok true, set_regTbl (delete method (regTbl st)) st, []).
Proof. intros H. unfold unbind. mstep. rewrite (reg_get_own _ _ _ H). by mstep. Qed.

Lemma unbind_unbound method st :
  reg_get (regTbl st) method = None → unbind method st = (Ok false, st, []).
Proof. intros H. unfold unbind. mstep. rewrite H. reflexivity. Qed.

Ltac stsimpl :=
  cbn [set_origin set_chanId set_regTbl set_tranTbl set_curTranId set_ready
       set_pendingQueue set_listening cfg_origin cfg_scope cfg_postMessageObserver
       cfg_gotMessageObserver cfg_onReady chanId regTbl tranTbl curTranId ready
       pendingQueue listening].

Lemma notify_ready method params st :
  method ≠ "" → ready st = true →
  notify method params st
  = (Ok tt, st, post_events st (notification_frame (scopeMethod (cfg_scope st) method) params)).
Proof.
  intros Hm Hr. unfold notify. rewrite bool_decide_eq_false_2 by done.
  mstep. by apply postMessage_ready.
Qed.


Lemma onReady_not_ready type st :
  ready st = false → regTbl st !! "__ready" = Some HReady →
  onReady type st
  = (Ok VUndef, after_ready (is_ping type) st, ready_events (is_ping type) st).
Proof.
  intros Hr Hreg. destruct st as [o sc po go onr ci rt tt_ ct rd q li]; cbn in Hr, Hreg. subst rd.
  unfold onReady, after_ready, ready_events. mstep. cbn [ready].
  destruct (is_ping type) eqn:Hp.
  - mstep. erewrite seqM_ok by (by eapply unbind_bound). rewrite prepend_nil.
    mstep. mstep. erewrite seqM_ok by (by apply notify_ready).
    mstep. erewrite seqM_ok by (apply flush_ready; [reflexivity | cbn; lia]).
    mstep. stsimpl. destruct onr; repeat mstep; unfold prepend, post_events, after_ready; cbn;
      rewrite ?app_nil_r, <- ?app_assoc; reflexivity.
  - mstep. erewrite seqM_ok by (by eapply unbind_bound). rewrite prepend_nil.
    mstep. mstep.
    mstep. erewrite seqM_ok by (apply flush_ready; [reflexivity | cbn; lia]).
    mstep. stsimpl. destruct onr; repeat mstep; unfold prepend, post_events, after_ready; cbn;
      rewrite ?app_nil_r, <- ?app_assoc; reflexivity.
Qed.

Lemma run_handler_ready method t type st :
  ready st = false → regTbl st !! "__ready" = Some HReady →
  run_handler method HReady t type st
  = (Ok (VUndef, TFlags false false), after_ready (is_ping type) st,
     EHandle method (match t with Some _ => TransObj | None => NullTrans end) type
       :: ready_events (is_ping type) st).
Proof.
  intros Hr Hreg. unfold run_handler. mstep.
  erewrite seqM_ok by (by apply onReady_not_ready). by rewrite prepend_ret.
Qed.

Lemma posted_concat_post_events st l : posted (concat (map (post_events st) l)) = l.
Proof.
  induction l as [|x l IH]; [done|]. cbn. by rewrite posted_app, posted_post_events, IH.
Qed.

Lemma posted_ready_events ping st :
  posted (ready_events ping st)
  = (if ping
     then [notification_frame (scopeMethod (cfg_scope st) "__ready") (VStr "pong")]
     else [])
    ++ rev (pendingQueue st).
Proof.
  unfold ready_events. rewrite !posted_app, posted_concat_post_events.
  assert (posted (if cfg_onReady st then [EOnReady] else []) = []) as ->
    by (by destruct (cfg_onReady st)).
  rewrite app_nil_r. f_equal. destruct ping; [apply posted_post_events | done].
Qed.

Lemma posted_got_events st e : posted (got_events st e) = [].
Proof. unfold got_events. by destruct (cfg_gotMessageObserver st). Qed.
Lemma applied_got_events st e : applied (got_events st e) = [].
Proof. unfold got_events. by destruct (cfg_gotMessageObserver st). Qed.
Lemma handled_got_events st e : handled (got_events st e) = [].
Proof. unfold got_events. by destruct (cfg_gotMessageObserver st). Qed.

(** C2 as amended *)
(** C2, as amended.  A channel that is not yet ready and still has its
    own handler bound to __ready receives a __ready notification.  If the
    payload is ping it adds (counter rem 2) to its counter, which makes an
    odd counter even, appends -R to its identity and posts a pong; on any
    other payload (pong) it leaves the counter as it is, so an odd counter
    stays odd, appends -L and posts no reply.  In both cases it unbinds
    __ready, becomes ready and empties the pending queue, newest message
    first. *)
Theorem ready_handshake st e :
  origin_accepted st e →
  ready st = false →
  regTbl st !! "__ready" = Some HReady →
  truthy_num (f_id (e_data e)) = false →
  descope (cfg_scope st) (f_method (e_data e)) = Some (Some "__ready") →
  let r := onMessage e st in
  let ping := is_ping (f_params (e_data e)) in
  result_of r = Ok tt
  ∧ ready (st_of r) = true
  ∧ curTranId (st_of r)
    = (if ping then curTranId st + Z.rem (curTranId st) 2 else curTranId st)
  ∧ (Z.odd (curTranId st) = true → Z.odd (curTranId (st_of r)) = negb ping)
  ∧ chanId (st_of r) = chanId st +:+ (if ping then "-R" else "-L")
  ∧ regTbl (st_of r) = delete "__ready" (regTbl st)
  ∧ pendingQueue (st_of r) = []
  ∧ posted (events_of r)
    = (if ping
       then [notification_frame (scopeMethod (cfg_scope st) "__ready") (VStr "pong")]
       else [])
      ++ rev (pendingQueue st).
Proof.
  intros Ho Hr Hreg Hid Hm r ping.
  assert (r = (Ok tt, after_ready ping st,
               got_events st e ++ EHandle "__ready" NullTrans (f_params (e_data e))
                 :: ready_events ping st)) as ->.
  { subst r. unfold onMessage. mstep. rewrite origin_accepted_check by done.
    rewrite Hm. rewrite Hid. cbn [andb from_option Datatypes.id truthy_str].
    change (negb (bool_decide ("__ready" = ""))) with true. cbv iota.
    unfold handle_notification.
    assert (∀ st', regTbl st' = regTbl st → ready st' = false →
       (st0 <- get ;; match reg_get (regTbl st0) "__ready" with
         | Some h => run_handler "__ready" h None (f_params (e_data e)) ;; ret tt
         | None => ret tt end) st'
       = (Ok tt, after_ready ping st', EHandle "__ready" NullTrans (f_params (e_data e))
                 :: ready_events ping st')) as Hn.
    { intros st' Hreg' Hr'. mstep. rewrite (reg_get_own _ _ HReady) by (by rewrite Hreg').
      erewrite seqM_ok by (apply run_handler_ready; [done | by rewrite Hreg']).
      by rewrite prepend_ret. }
    unfold got_events. destruct (cfg_gotMessageObserver st).
    - rewrite seqM_when_true. mstep. rewrite Hn by done. reflexivity.
    - rewrite seqM_when_false. rewrite Hn by done. reflexivity. }
  unfold result_of, st_of, events_of. cbn [fst snd].
  split; [done|]. split; [done|]. split; [by destruct ping|].
  split; [intros Hodd; destruct ping; cbn; [apply rem2_parity | done]|].
  split; [by destruct ping|]. split; [done|]. split; [done|].
  rewrite posted_app, posted_got_events. cbn. apply posted_ready_events.
Qed.

Lemma onMessage_rejected st e :
  cfg_origin st ≠ Some "*" → cfg_origin st ≠ Some (e_origin e) →
  onMessage e st = (Ok tt, st, []).
Proof.
  intros H1 H2. unfold onMessage. mstep.
  by rewrite !bool_decide_eq_true_2 by done.
Qed.

(** C6.  An inbound frame whose sender origin differs from the configured
    origin, when that origin is not the wildcard, is dropped before it is
    looked at: the listener returns normally, the channel is unchanged (its
    registry, transaction table, ready flag and pending queue with it), and
    nothing is emitted: no frame is posted, no handler, observer or
    continuation runs. *)
Theorem origin_isolation st e :
  cfg_origin st ≠ Some "*" → cfg_origin st ≠ Some (e_origin e) →
  onMessage e st = (Ok tt, st, []).
Proof. apply onMessage_rejected. Qed.

Lemma descope_unscoped scope method :
  truthy_str method = false → descope scope method = Some method.
Proof. intros H. unfold descope. by rewrite H. Qed.

Lemma truthy_num_Some id : id ≠ 0 → truthy_num (Some id) = true.
Proof. intros H. cbn. by destruct (Z.eqb_spec id 0). Qed.

Lemma truthy_str_Some s : s ≠ "" → truthy_str (Some s) = true.
Proof. intros H. cbn. by rewrite bool_decide_eq_false_2. Qed.

(** what [onMessage] does once the origin and scope checks are passed *)
Lemma onMessage_accepted st e um :
  origin_accepted st e →
  descope (cfg_scope st) (f_method (e_data e)) = Some um →
  onMessage e st
  = prepend (got_events st e)
      (let m := e_data e in
       let id := default 0 (f_id m) in
       let method := default "" um in
       let callback := default "" (f_callback m) in
       (if truthy_num (f_id m) && truthy_str um then
          match reg_get (regTbl st) method with
          | Some h => handle_request id method h m
          | None => ret tt
          end
        else if truthy_num (f_id m) && truthy_str (f_callback m) then
          handle_callback id callback m
        else if truthy_num (f_id m)
                && (negb (is_undef (f_result m)) || truthy (f_error m)) then
          handle_response id m
        else if truthy_str um then
          handle_notification method m
        else ret tt) st).
Proof.
  intros Ho Hd. unfold onMessage. mstep. rewrite origin_accepted_check by done.
  rewrite Hd. unfold got_events. destruct (cfg_gotMessageObserver st).
  - rewrite seqM_when_true. by mstep.
  - rewrite seqM_when_false. by rewrite prepend_nil.
Qed.

(** An inbound frame that matches nothing in the channel (a request whose
    descoped method is neither bound nor a name the registry inherits; a
    progress frame whose id is unknown, keys an inbound transaction, or
    names a callback that the call did not declare and the callbacks do
    not inherit; a final response whose id is unknown or keys an inbound
    transaction) is dropped: the listener returns normally, the channel is
    unchanged, no frame is posted, and no continuation and no handler is
    entered. *)
Lemma mismatch_dropped st e :
  mismatch st (e_data e) →
  let r := onMessage e st in
  result_of r = Ok tt ∧ st_of r = st
  ∧ posted (events_of r) = [] ∧ applied (events_of r) = [] ∧ handled (events_of r) = [].
Proof.
  intros Hm r.
  destruct (decide (cfg_origin st ≠ Some "*" ∧ cfg_origin st ≠ Some (e_origin e))) as [[H1 H2]|Ho].
  { subst r. by rewrite onMessage_rejected. }
  assert (origin_accepted st e) as Hacc.
  { unfold origin_accepted.
    destruct (decide (cfg_origin st = Some "*")); [by left|].
    destruct (decide (cfg_origin st = Some (e_origin e))); [by right|]. by destruct Ho. }
  assert (∃ um, descope (cfg_scope st) (f_method (e_data e)) = Some um ∧
     r = (Ok tt, st, got_events st e)) as (um & _ & ->).
  { subst r. destruct Hm as [id method Hid Hne Hd Hmne Hreg
                            | id cb Hid Hne Hmeth Hcb Hcbne Hbad
                            | id Hid Hne Hmeth Hcb Hres Hbad].
    - eexists; split; [done|]. erewrite onMessage_accepted by done.
      cbn zeta. rewrite Hid, truthy_num_Some, truthy_str_Some by done. cbn [andb from_option Datatypes.id].
      rewrite Hreg. by rewrite prepend_ret.
    - eexists; split; [by apply descope_unscoped|].
      erewrite onMessage_accepted by (by try apply descope_unscoped).
      cbn zeta. rewrite Hid, Hmeth, Hcb, truthy_num_Some, truthy_str_Some by done.
      cbn [andb from_option Datatypes.id]. unfold handle_callback. mstep.
      destruct Hbad as [-> | [-> | (r & -> & -> & ->)]]; by rewrite prepend_ret.
    - eexists; split; [by apply descope_unscoped|].
      erewrite onMessage_accepted by (by try apply descope_unscoped).
      cbn zeta. rewrite Hid, Hmeth, Hcb, truthy_num_Some by done.
      cbn [andb from_option Datatypes.id].
      assert (negb (is_undef (f_result (e_data e))) || truthy (f_error (e_data e)) = true) as ->.
      { destruct Hres as [Hres | ->]; [|apply orb_true_r].
        destruct (f_result (e_data e)); done. }
      unfold handle_response. mstep.
      destruct Hbad as [-> | ->]; by rewrite prepend_ret. }
  unfold result_of, st_of, events_of; cbn.
  by rewrite posted_got_events, applied_got_events, handled_got_events.
Qed.

Lemma run_hprog_null fl p st :
  run_hprog None fl p st
  = (match run_null p with Ok v => Ok (v, fl) | Throw e => Throw e end, st, []).
Proof. induction p; cbn; auto. Qed.

(** C9.  An inbound notification (a method, no id) whose handler is a
    function the application bound: the function is entered once, with
    null and the frame's params; what it returns is dropped; an error it
    throws is answered by nothing and only leaves the listener; in either
    case no frame is posted, no continuation is entered and the channel is
    unchanged. *)
Theorem notification_fire_and_forget st e method h :
  origin_accepted st e →
  truthy_num (f_id (e_data e)) = false →
  descope (cfg_scope st) (f_method (e_data e)) = Some (Some method) →
  method ≠ "" →
  regTbl st !! method = Some (HUser h) →
  let r := onMessage e st in
  handled (events_of r) = [(method, NullTrans, f_params (e_data e))]
  ∧ result_of r
    = match run_null (h NullTrans (f_params (e_data e))) with
      | Ok _ => Ok tt
      | Throw x => Throw x
      end
  ∧ posted (events_of r) = []
  ∧ applied (events_of r) = []
  ∧ st_of r = st.
Proof.
  intros Ho Hid Hd Hm Hreg r.
  assert (r = (match run_null (h NullTrans (f_params (e_data e))) with
               | Ok _ => Ok tt
               | Throw x => Throw x
               end, st,
               got_events st e ++ [EHandle method NullTrans (f_params (e_data e))])) as ->.
  { subst r. erewrite onMessage_accepted by done. cbn zeta.
    rewrite Hid, truthy_str_Some by done. cbn [andb from_option Datatypes.id].
    unfold handle_notification. mstep. rewrite (reg_get_own _ _ _ Hreg). unfold run_handler.
    rewrite seqM_assoc. mstep. rewrite prepend_prepend.
    destruct (run_null _) as [v|x] eqn:Hrun.
    - erewrite seqM_ok by (rewrite run_hprog_null, Hrun; reflexivity).
      by rewrite prepend_nil, prepend_ret.
    - erewrite seqM_raise by (rewrite run_hprog_null, Hrun; reflexivity). 
      by rewrite prepend_pair, app_nil_r. }
  unfold result_of, st_of, events_of; cbn.
  rewrite handled_app, posted_app, applied_app.
  by rewrite posted_got_events, applied_got_events, handled_got_events.
Qed.


Lemma silenced_postMessage msg st :
  silenced st →
  silenced (st_of (postMessage msg false st)) ∧ events_of (postMessage msg false st) = [].
Proof. intros [Hr Ho]. rewrite postMessage_queued by done. done. Qed.





Lemma tout_le_refl st : tout_le st st.
Proof. by intros ??. Qed.

Lemma tout_le_trans st1 st2 st3 : tout_le st1 st2 → tout_le st2 st3 → tout_le st1 st3.
Proof. intros H1 H2 id r H. by apply H1, H2. Qed.

Lemma tout_le_same st st' : tranTbl st' = tranTbl st → tout_le st st'.
Proof. intros H id r. by rewrite H. Qed.

Lemma tout_le_delete st id : tout_le st (set_tranTbl (delete id (tranTbl st)) st).
Proof.
  intros j r. cbn. rewrite lookup_delete. case_decide; [done|]. done.
Qed.

Lemma tout_le_insert_in st id : tout_le st (set_tranTbl (<[id := TIn]> (tranTbl st)) st).
Proof.
  intros j r. cbn. rewrite lookup_insert. case_decide; [done|]. done.
Qed.

Section Quiet.
Context {A B : Type}.

Lemma quiet_seqM (m : M A) (k : A → M B) st :
  quiet_at m st →
  (∀ a st1 ev1, m st = (Ok a, st1, ev1) → quiet_at (k a) st1) →
  quiet_at (seqM m k) st.
Proof.
  unfold quiet_at. intros [H1 H2] Hk.
  destruct (m st) as [[[a|e] st1] ev1] eqn:Hm.
  - erewrite seqM_ok by done. destruct (Hk a st1 ev1 eq_refl) as [H3 H4].
    destruct (k a st1) as [[r st2] ev2]. unfold st_of, events_of in *; cbn in *.
    split; [by eapply tout_le_trans|]. by rewrite applied_app, H2, H4.
  - erewrite seqM_raise by done. done.
Qed.

Lemma quiet_try_catch (m : M A) (h : value → M A) st :
  quiet_at m st →
  (∀ e st1 ev1, m st = (Throw e, st1, ev1) → quiet_at (h e) st1) →
  quiet_at (try_catch m h) st.
Proof.
  unfold quiet_at, try_catch. intros [H1 H2] Hk.
  destruct (m st) as [[[a|e] st1] ev1] eqn:Hm; [done|].
  destruct (Hk e st1 ev1 eq_refl) as [H3 H4].
  destruct (h e st1) as [[r st2] ev2]. unfold st_of, events_of in *; cbn in *.
  split; [by eapply tout_le_trans|]. by rewrite applied_app, H2, H4.
Qed.

Lemma quiet_attempt (m : M A) st : quiet_at m st → quiet_at (attempt m) st.
Proof. unfold quiet_at, attempt. by destruct (m st) as [[r st1] ev1]. Qed.

Lemma quiet_ret (a : A) st : quiet_at (ret a) st.
Proof. split; [apply tout_le_refl | done]. Qed.

Lemma quiet_throw e st : quiet_at (@throw A e) st.
Proof. split; [apply tout_le_refl | done]. Qed.
End Quiet.

Lemma quiet_get_seqM {B} (k : chan → M B) st : quiet_at (k st) st → quiet_at (seqM get k) st.
Proof. intros H. unfold quiet_at. by rewrite seqM_get. Qed.

Lemma quiet_modify f st : tout_le st (f st) → quiet_at (modify f) st.
Proof. by split. Qed.

Lemma quiet_postMessage msg force st : quiet_at (postMessage msg force) st.
Proof.
  unfold postMessage. apply quiet_get_seqM.
  destruct (negb force && negb (ready st)).
  - by apply quiet_modify, tout_le_same.
  - split; [|by destruct (cfg_postMessageObserver st)].
    apply tout_le_same. by destruct (cfg_postMessageObserver st).
Qed.

Lemma quiet_trans_invoke id cbs cb v st : quiet_at (trans_invoke id cbs cb v) st.
Proof.
  unfold trans_invoke. apply quiet_get_seqM. destruct (tranTbl st !! id); [|apply quiet_throw].
  destruct (bool_decide _); [apply quiet_postMessage | apply quiet_throw].
Qed.

Lemma quiet_trans_complete id v st : quiet_at (trans_complete id v) st.
Proof.
  unfold trans_complete. apply quiet_get_seqM.
  destruct (tranTbl st !! id) as [[|]|]; try apply quiet_throw.
  apply quiet_seqM; [apply quiet_modify, tout_le_delete|].
  intros. apply quiet_postMessage.
Qed.

Lemma quiet_trans_error id err msg st : quiet_at (trans_error id err msg) st.
Proof.
  unfold trans_error. apply quiet_get_seqM.
  destruct (tranTbl st !! id) as [[|]|]; try apply quiet_throw.
  apply quiet_seqM; [apply quiet_modify, tout_le_delete|].
  intros. apply quiet_postMessage.
Qed.

Lemma quiet_run_hprog t fl p st : quiet_at (run_hprog t fl p) st.
Proof.
  revert fl st. induction p as [v|e|cb v k IH|err msg k IH|v k IH|d k IH|k IH]; intros fl st;
    cbn [run_hprog].
  - apply quiet_ret.
  - apply quiet_throw.
  - destruct t as [[id cbs]|]; [|apply IH].
    apply quiet_seqM; [apply quiet_attempt, quiet_trans_invoke | intros; apply IH].
  - destruct t as [[id cbs]|]; [|apply IH].
    apply quiet_seqM; [apply quiet_attempt, quiet_trans_error | intros; apply IH].
  - destruct t as [[id cbs]|]; [|apply IH].
    apply quiet_seqM; [apply quiet_attempt, quiet_trans_complete | intros; apply IH].
  - destruct t as [[id cbs]|]; apply IH.
  - destruct t as [[id cbs]|]; apply IH.
Qed.

Lemma quiet_unbind method st : quiet_at (unbind method) st.
Proof.
  unfold unbind. apply quiet_get_seqM. destruct (reg_get (regTbl st) method); [|apply quiet_ret].
  apply quiet_seqM; [by apply quiet_modify, tout_le_same | intros; apply quiet_ret].
Qed.

Lemma quiet_notify method params st : quiet_at (notify method params) st.
Proof.
  unfold notify. destruct (bool_decide _); [apply quiet_throw|].
  apply quiet_get_seqM, quiet_postMessage.
Qed.

Lemma quiet_flush n st : quiet_at (flush n) st.
Proof.
  revert st. induction n as [|n IH]; intros st; cbn [flush]; [apply quiet_ret|].
  apply quiet_get_seqM. destruct (pop (pendingQueue st)) as [[msg rest]|]; [|apply quiet_ret].
  apply quiet_seqM; [by apply quiet_modify, tout_le_same|]. intros.
  apply quiet_seqM; [apply quiet_postMessage | intros; apply IH].
Qed.

Lemma quiet_when b m st : quiet_at m st → quiet_at (when b m) st.
Proof. destruct b; [done | intros; apply quiet_ret]. Qed.

Lemma quiet_emit e st : applied [e] = [] → quiet_at (emit e) st.
Proof. intros H. split; [apply tout_le_refl | done]. Qed.

Lemma quiet_onReady type st : quiet_at (onReady type) st.
Proof.
  unfold onReady. apply quiet_get_seqM. destruct (ready st); [apply quiet_throw|].
  apply quiet_seqM.
  { destruct (is_ping type); by apply quiet_modify, tout_le_same. }
  intros. apply quiet_seqM; [apply quiet_unbind|]. intros.
  apply quiet_seqM; [by apply quiet_modify, tout_le_same|]. intros.
  apply quiet_seqM; [apply quiet_when, quiet_notify|]. intros.
  apply quiet_get_seqM. apply quiet_seqM; [apply quiet_flush|]. intros.
  apply quiet_get_seqM. apply quiet_seqM; [by apply quiet_when, quiet_emit|]. intros.
  apply quiet_ret.
Qed.

(** an inherited property returns a value or raises, and does nothing else *)
Lemma run_builtin_pure b t st : ∃ r, run_builtin b t st = (r, st, []).
Proof. unfold run_builtin. rewrite seqM_get. destruct b; eexists; reflexivity. Qed.

Lemma quiet_run_builtin b t st : quiet_at (run_builtin b t) st.
Proof.
  destruct (run_builtin_pure b t st) as [r Hr]. unfold quiet_at. rewrite Hr.
  split; [apply tout_le_refl | done].
Qed.

Lemma quiet_run_handler method h t params st : quiet_at (run_handler method h t params) st.
Proof.
  unfold run_handler. apply quiet_seqM; [by apply quiet_emit|]. intros.
  destruct h; [|apply quiet_run_hprog|].
  - apply quiet_seqM; [apply quiet_onReady | intros; apply quiet_ret].
  - apply quiet_seqM; [apply quiet_run_builtin | intros; apply quiet_ret].
Qed.

Lemma quiet_request_body id method h m st : quiet_at (request_body id method h m) st.
Proof.
  unfold request_body. apply quiet_try_catch.
  - apply quiet_seqM.
    { destruct (install_callbacks _ _ _ _); [apply quiet_ret | apply quiet_throw]. }
    intros. apply quiet_seqM; [apply quiet_run_handler|]. intros.
    destruct (_ && _); [apply quiet_trans_complete | apply quiet_ret].
  - intros. destruct (normalize_error e) as [[err msg]|];
      [apply quiet_trans_error | apply quiet_throw].
Qed.

Lemma quiet_handle_request id method h m st : quiet_at (handle_request id method h m) st.
Proof.
  unfold handle_request. apply quiet_seqM; [apply quiet_modify, tout_le_insert_in|].
  intros. apply quiet_request_body.
Qed.

Lemma quiet_handle_notification method m st : quiet_at (handle_notification method m) st.
Proof.
  unfold handle_notification. apply quiet_get_seqM.
  destruct (reg_get (regTbl st) method); [|apply quiet_ret].
  apply quiet_seqM; [apply quiet_run_handler | intros; apply quiet_ret].
Qed.

Lemma quiet_tame {A} (m : M A) st : quiet_at m st → tame_at m st.
Proof. intros [H1 H2]. split; [done|]. rewrite H2. intros ?? H. by apply elem_of_nil in H. Qed.

Lemma tame_done {A} (a : outcome A) st :
  tout_le st (st_of (a, st, []))
  ∧ ∀ f args, (f, args) ∈ applied (events_of (a, st, [])) → referenced st f.
Proof. split; [apply tout_le_refl|]. intros ?? H. by apply elem_of_nil in H. Qed.

Lemma enter_shape f args st :
  ∃ r st' ev, enter f args st = (r, st', ev) ∧ tout_le st st'
    ∧ ∀ g a, (g, a) ∈ applied ev → g = f.
Proof.
  destruct f as [name|name|id cbs cb].
  - exists (Ok tt), st, [EApply (Local name) args]. split_and!; [done | apply tout_le_refl |].
    intros g a Hin. apply list_elem_of_singleton in Hin. by injection Hin as -> _.
  - exists (Throw native_error), st, [EApply (Faulty name) args].
    split_and!; [done | apply tout_le_refl |].
    intros g a Hin. apply list_elem_of_singleton in Hin. by injection Hin as -> _.
  - destruct (quiet_trans_invoke id cbs cb (hd VUndef args) st) as [H1 H2].
    cbn [enter]. destruct (trans_invoke id cbs cb (hd VUndef args) st) as [[r st'] ev].
    exists r, st', ev. split_and!; [done | done |]. cbn in H2. rewrite H2.
    intros ?? H. by apply elem_of_nil in H.
Qed.

Lemma tame_enter f args st : referenced st f → tame_at (enter f args) st.
Proof.
  intros Hf. destruct (enter_shape f args st) as (r & st' & ev & He & H1 & H2).
  unfold tame_at. rewrite He. split; [done|].
  intros g a Hin. cbn in Hin. by rewrite (H2 _ _ Hin).
Qed.

Lemma tame_handle_callback id cb m st : tame_at (handle_callback id cb m) st.
Proof.
  unfold handle_callback, tame_at. rewrite seqM_get.
  destruct (tranTbl st !! id) as [[|r]|] eqn:Ht; try (by apply quiet_tame, quiet_ret).
  destruct (o_callbacks r !! cb) as [f|] eqn:Hc.
  - apply tame_enter. exists id, r. split; [done|]. right; right. by exists cb.
  - destruct (Object_prototype cb) as [b|]; [destruct (builtin_raises b)|];
      apply quiet_tame; first [apply quiet_throw | apply quiet_ret].
Qed.

Lemma tame_enter_delete f args id st :
  referenced st f →
  tame_at (enter f args ;; modify (λ st, set_tranTbl (delete id (tranTbl st)) st)) st.
Proof.
  intros Hf. destruct (enter_shape f args st) as (r & st' & ev & He & H1 & H2).
  unfold tame_at. destruct r as [[]|e].
  - erewrite seqM_ok by exact He. cbn. split.
    + eapply tout_le_trans; [exact H1 | apply tout_le_delete].
    + intros g a Hin. rewrite app_nil_r in Hin. by rewrite (H2 _ _ Hin).
  - erewrite seqM_raise by exact He. cbn. split; [done|].
    intros g a Hin. by rewrite (H2 _ _ Hin).
Qed.

Lemma tame_handle_response id m st : tame_at (handle_response id m) st.
Proof.
  unfold handle_response, tame_at. rewrite seqM_get.
  destruct (tranTbl st !! id) as [[|r]|] eqn:Ht; try (by apply quiet_tame, quiet_ret).
  destruct (truthy (f_error m)).
  - destruct (o_error r) as [f|] eqn:He.
    + apply tame_enter_delete. exists id, r. split; [done|]. right; left. done.
    + rewrite seqM_throw. apply tame_done.
  - apply tame_enter_delete. exists id, r. split; [done|]. by left.
Qed.

Lemma tame_prepend_got {A} (m : M A) st e :
  tame_at m st →
  tout_le st (prepend (got_events st e) (m st)).1.2
  ∧ ∀ f args, (f, args) ∈ applied (prepend (got_events st e) (m st)).2 → referenced st f.
Proof.
  intros [H1 H2]. unfold prepend; cbn. split; [done|].
  intros f args. rewrite applied_app, applied_got_events. apply H2.
Qed.

Lemma tame_onMessage e st : tame_at (onMessage e) st.
Proof.
  destruct (decide (cfg_origin st ≠ Some "*" ∧ cfg_origin st ≠ Some (e_origin e))) as [[H1 H2]|Ho].
  { unfold tame_at. rewrite onMessage_rejected by done. apply tame_done. }
  assert (origin_accepted st e) as Hacc.
  { unfold origin_accepted.
    destruct (decide (cfg_origin st = Some "*")); [by left|].
    destruct (decide (cfg_origin st = Some (e_origin e))); [by right|]. by destruct Ho. }
  destruct (descope (cfg_scope st) (f_method (e_data e))) as [um|] eqn:Hd.
  - unfold tame_at. erewrite onMessage_accepted by done. apply tame_prepend_got. cbn zeta.
    destruct (_ && _).
    { destruct (reg_get (regTbl st) _); apply quiet_tame;
        [apply quiet_handle_request | apply quiet_ret]. }
    destruct (_ && _); [apply tame_handle_callback|].
    destruct (_ && _); [apply tame_handle_response|].
    destruct (truthy_str um); apply quiet_tame;
      [apply quiet_handle_notification | apply quiet_ret].
  - unfold tame_at, onMessage. rewrite seqM_get, origin_accepted_check, Hd by done.
    apply tame_done.
Qed.

Lemma callbacks_of_lookup recs path f :
  callbacks_of recs !! path = Some f → (path, f) ∈ recs.
Proof.
  unfold callbacks_of.
  assert (∀ acc : gmap string callable,
            fold_left (λ acc pf, <[pf.1 := pf.2]> acc) recs acc !! path = Some f →
            (path, f) ∈ recs ∨ acc !! path = Some f) as H.
  { induction recs as [|[p g] recs IH]; intros acc Hl; [by right|].
    cbn in Hl. destruct (IH _ Hl) as [Hin | Hacc].
    - left. by right.
    - rewrite lookup_insert in Hacc. case_decide as Hp; [|by right].
      cbn in Hp. subst p. injection Hacc as ->. left. by left. }
  intros Hl. destruct (H ∅ Hl) as [? | Hempty]; [done|].
  by rewrite lookup_empty in Hempty.
Qed.

(** the functions that no open outbound transaction holds stay so, and are
    not entered, as long as the application does not pass them to [call] *)
Lemma unreferenced_feed f i st :
  ¬ referenced st f →
  (∀ o, i = IOp o → ¬ op_passes f o) →
  ¬ referenced (st_of (feed i st)) f
  ∧ ∀ args, (f, args) ∉ applied (events_of (feed i st)).
Proof.
  intros Hun Hpass.
  assert (∀ (m : M unit), tame_at m st →
            ¬ referenced (st_of (m st)) f ∧ ∀ args, (f, args) ∉ applied (events_of (m st))) as Htame.
  { intros m [H1 H2]. split.
    - intros (j & r & Hj & Hc). apply Hun. exists j, r. split; [by apply H1 | done].
    - intros args Hin. by apply Hun, (H2 f args). }
  destruct i as [e | o]; cbn [feed].
  - apply Htame. unfold tame_at. rewrite seqM_get.
    destruct (listening st); [apply tame_onMessage | by apply quiet_tame, quiet_ret].
  - destruct o as [method h | method | m | method params | | id cbs cb v | id v | id err msg];
      cbn [run_op].
    + apply Htame, quiet_tame. unfold bind. destruct (bool_decide _); [apply quiet_throw|].
      apply quiet_get_seqM. destruct (reg_get (regTbl st) method); [apply quiet_throw|].
      by apply quiet_modify, tout_le_same.
    + apply Htame, quiet_tame. apply quiet_seqM; [apply quiet_unbind | intros; apply quiet_ret].
    + specialize (Hpass _ eq_refl). cbn in Hpass.
      unfold call. destruct (bool_decide _); [by apply Htame, quiet_tame, quiet_throw|].
      destruct (c_success m) as [s|] eqn:Hs; [|by apply Htame, quiet_tame, quiet_throw].
      cbn zeta. rewrite seqM_get, !seqM_modify.
      pose proof (quiet_postMessage
        (request_frame (curTranId st) (scopeMethod (cfg_scope st) (c_method m))
           (pruneFunctions "" (c_params m)).1
           match map fst (pruneFunctions "" (c_params m)).2 with
           | [] => None
           | _ :: _ => Some (map fst (pruneFunctions "" (c_params m)).2)
           end) false) as Hq.
      match goal with |- context [postMessage ?msg false ?s] =>
        destruct (Hq s) as [Hle Happ] end.
      split.
      * intros (j & r & Hj & Hc). apply Hle in Hj. cbn in Hj.
        rewrite lookup_insert in Hj. case_decide as Hk.
        -- injection Hj as <-. apply Hpass. destruct Hc as [-> | [Hc | [path Hc]]].
           ++ by left.
           ++ right; left. done.
           ++ right; right. exists path. by apply callbacks_of_lookup.
        -- apply Hun. by exists j, r.
      * intros args. rewrite Happ. apply not_elem_of_nil.
    + apply Htame, quiet_tame, quiet_notify.
    + apply Htame, quiet_tame. split; [|done]. intros j r. cbn. by rewrite lookup_empty.
    + apply Htame, quiet_tame, quiet_trans_invoke.
    + apply Htame, quiet_tame, quiet_trans_complete.
    + apply Htame, quiet_tame, quiet_trans_error.
Qed.

Lemma unreferenced_feed_all f l st :
  ¬ referenced st f →
  (∀ o, IOp o ∈ l → ¬ op_passes f o) →
  ∀ args, (f, args) ∉ applied (feed_all l st).2.
Proof.
  revert st. induction l as [|i l IH]; intros st Hun Hpass args; [apply not_elem_of_nil|].
  cbn [feed_all snd]. rewrite applied_app.
  destruct (unreferenced_feed f i st Hun) as [Hun1 Hno].
  { intros o ->. apply Hpass. by left. }
  intros [Hin | Hin]%elem_of_app; [by apply (Hno args)|].
  eapply IH; [exact Hun1 | | exact Hin]. intros o Ho. apply Hpass. by right.
Qed.

(** C10.  An inbound request for a bound method stores the record of an
    inbound transaction under the frame's id whatever the table held there:
    the rest of the request runs from the table with that record.
    Afterwards the id keys an inbound record or nothing.  If it keyed an
    outbound transaction, a continuation of that transaction which no other
    open transaction holds is never entered again, whatever message events
    and operations follow, unless the application passes it to a new call. *)
Theorem request_overwrites st e id method h :
  origin_accepted st e →
  f_id (e_data e) = Some id → id ≠ 0 →
  descope (cfg_scope st) (f_method (e_data e)) = Some (Some method) → method ≠ "" →
  regTbl st !! method = Some h →
  let r := onMessage e st in
  r = prepend (got_events st e)
        (request_body id method h (e_data e)
           (set_tranTbl (<[id := TIn]> (tranTbl st)) st))
  ∧ (tranTbl (st_of r) !! id = None ∨ tranTbl (st_of r) !! id = Some TIn)
  ∧ ∀ r0 f,
      tranTbl st !! id = Some (TOut r0) → cont_of r0 f →
      (∀ j r', j ≠ id → tranTbl st !! j = Some (TOut r') → ¬ cont_of r' f) →
      ∀ l, (∀ o, IOp o ∈ l → ¬ op_passes f o) →
      ∀ args, (f, args) ∉ applied (events_of r ++ (feed_all l (st_of r)).2).
Proof.
  intros Ho Hid Hne Hd Hm Hreg r.
  assert (r = prepend (got_events st e)
        (request_body id method h (e_data e)
           (set_tranTbl (<[id := TIn]> (tranTbl st)) st))) as Hr.
  { subst r. erewrite onMessage_accepted by done. cbn zeta.
    rewrite Hid, truthy_num_Some, truthy_str_Some by done. cbn [andb from_option Datatypes.id].
    rewrite (reg_get_own _ _ _ Hreg). unfold handle_request. by rewrite seqM_modify. }
  split; [done|].
  destruct (quiet_request_body id method h (e_data e)
              (set_tranTbl (<[id := TIn]> (tranTbl st)) st)) as [Hle Happ].
  assert (st_of r = st_of (request_body id method h (e_data e)
              (set_tranTbl (<[id := TIn]> (tranTbl st)) st))) as Hst by (by rewrite Hr).
  assert (applied (events_of r) = []) as Hev.
  { rewrite Hr. unfold events_of, prepend; cbn. by rewrite applied_app, applied_got_events. }
  assert (∀ j r', tranTbl (st_of r) !! j = Some (TOut r') →
            j ≠ id ∧ tranTbl st !! j = Some (TOut r')) as Hsub.
  { intros j r' Hj. rewrite Hst in Hj. apply Hle in Hj. cbn in Hj.
    rewrite lookup_insert in Hj. case_decide; [done|]. done. }
  split.
  - destruct (tranTbl (st_of r) !! id) as [[|r']|] eqn:Hfin; [by right | | by left].
    by destruct (Hsub _ _ Hfin).
  - intros r0 f Hr0 Hc Hfresh l Hl args. rewrite applied_app, Hev. cbn.
    apply unreferenced_feed_all; [|done].
    intros (j & r' & Hj & Hc'). destruct (Hsub _ _ Hj) as [Hjne Hj']. by apply (Hfresh j r').
Qed.











(** ** Paths in a parameter tree *)

(** * Trees *)

Lemma value_ind' (P : value → Prop) :
  P VUndef → P VNull → (∀ b, P (VBool b)) → (∀ n, P (VNum n)) → (∀ s, P (VStr s)) →
  (∀ f, P (VFun f)) →
  (∀ ps, Forall (λ kv, P kv.2) ps → P (VObj ps)) →
  (∀ n ps, Forall (λ kv, P kv.2) ps → P (VArr n ps)) →
  ∀ v, P v.
Proof.
  intros H1 H2 H3 H4 H5 H6 H7 H8.
  fix IH 1. intros [| | b | n | s | f | ps | n ps].
  - apply H1.
  - apply H2.
  - apply H3.
  - apply H4.
  - apply H5.
  - apply H6.
  - apply H7. induction ps as [|[k x] ps IHps]; constructor; [apply IH | exact IHps].
  - apply H8. induction ps as [|[k x] ps IHps]; constructor; [apply IH | exact IHps].
Qed.

Lemma pruneFunctions_obj path ps :
  pruneFunctions path (VObj ps) = (VObj (prune_props path ps).1, (prune_props path ps).2).
Proof.
  cbn [pruneFunctions].
  match goal with |- (VObj (?w ps).1, _) = _ =>
    assert (∀ l, w l = prune_props path l) as Hw end.
  { induction l as [|[k x] l IH]; [done|]. cbn [prune_props]. rewrite <- IH.
    destruct x; reflexivity. }
  by rewrite Hw.
Qed.

Lemma pruneFunctions_arr path n ps :
  pruneFunctions path (VArr n ps) = (VArr n (prune_props path ps).1, (prune_props path ps).2).
Proof.
  cbn [pruneFunctions].
  match goal with |- (VArr n (?w ps).1, _) = _ =>
    assert (∀ l, w l = prune_props path l) as Hw end.
  { induction l as [|[k x] l IH]; [done|]. cbn [prune_props]. rewrite <- IH.
    destruct x; reflexivity. }
  by rewrite Hw.
Qed.

Lemma pruneFunctions_other path v :
  props_of v = [] → (∀ ps, v ≠ VObj ps) → (∀ n ps, v ≠ VArr n ps) →
  pruneFunctions path v = (v, []).
Proof. intros _ H1 H2. destruct v; try done; [by destruct (H1 props) | by destruct (H2 len props)]. Qed.















(** ** [pruneFunctions] *)













(** ** Path strings *)

Lemma split_slash_not_nil s : split_slash s ≠ [].
Proof.
  destruct s as [|c r]; [done|]. cbn. case_decide; [done|].
  by destruct (split_slash r).
Qed.












(** ** The wire *)

Lemma jsonify_obj ps :
  jsonify (VObj ps) = VObj (filter (λ kv, is_undef kv.2 = false) (jsonify_props ps)).
Proof.
  cbn [jsonify].
  match goal with |- VObj (filter _ (?w ps)) = _ =>
    assert (∀ l, w l = jsonify_props l) as Hw end.
  { induction l as [|[k x] l IH]; [done|].
    change (jsonify_props ((k, x) :: l)) with ((k, jsonify x) :: jsonify_props l).
    by rewrite <- IH. }
  by rewrite Hw.
Qed.

Lemma jsonify_arr n ps :
  jsonify (VArr n ps)
  = VArr n (map (λ i : nat, (pretty i, null_if_undef (assoc (pretty i) (jsonify_props ps))))
              (seq 0 n)).
Proof.
  cbn [jsonify].
  match goal with |- VArr n (map (λ i, (_, null_if_undef (assoc _ (?w ps)))) _) = _ =>
    assert (∀ l, w l = jsonify_props l) as Hw end.
  { induction l as [|[k x] l IH]; [done|].
    change (jsonify_props ((k, x) :: l)) with ((k, jsonify x) :: jsonify_props l).
    by rewrite <- IH. }
  by rewrite Hw.
Qed.

Lemma assoc_jsonify_props k ps : assoc k (jsonify_props ps) = jsonify (assoc k ps).
Proof.
  induction ps as [|[k' x] ps IH]; [done|]. cbn. case_decide; [done | exact IH].
Qed.



Lemma assoc_indexed k n (g : string → value) :
  assoc k (map (λ i : nat, (pretty i, g (pretty i))) (seq 0 n))
  = if bool_decide (k ∈ map (λ i : nat, pretty i) (seq 0 n)) then g k else VUndef.
Proof.
  generalize 0%nat. induction n as [|n IH]; intros s; [done|].
  cbn [seq map assoc]. case_decide as Hk.
  - subst k. rewrite bool_decide_eq_true_2; [done | by left].
  - rewrite IH. destruct (bool_decide (k ∈ map _ (seq (S s) n))) eqn:Hb.
    + rewrite bool_decide_eq_true_2; [done|]. right. by apply bool_decide_eq_true in Hb.
    + rewrite bool_decide_eq_false_2; [done|]. apply bool_decide_eq_false in Hb.
      by intros [? | ?]%elem_of_cons.
Qed.





(** ** Installing the synthetic functions *)



Lemma passable_node k T : passable k T → is_node T = true.
Proof. by destruct T. Qed.





Lemma installable_passable k ks T : installable (k :: ks) T → passable k T.
Proof. by intros [H _]. Qed.





Lemma below_nil q : q ≠ [] → below q [].
Proof. intros H. by exists q. Qed.










Lemma call_run m success st :
  c_method m ≠ "" → c_success m = Some success →
  call m st = postMessage (call_frame st m) false (after_call st m success).
Proof.
  intros Hm Hs. unfold call. rewrite bool_decide_eq_false_2, Hs by done. cbn zeta.
  by rewrite seqM_get, !seqM_modify.
Qed.

Lemma after_call_lookup st m success :
  tranTbl (after_call st m success) !! curTranId st
  = Some (TOut (OutTran (callbacks_of (pruneFunctions "" (c_params m)).2) (c_error m) success)).
Proof. unfold after_call. cbn. apply lookup_insert_eq. Qed.
















Lemma descope_none scope : descope scope None = Some None.
Proof. reflexivity. Qed.


(** ** Scenarios *)

Lemma seed_rounds_to_even (r : Z) :
  Z.even (Z.lor r 1 + Z.rem (Z.lor r 1) 2) = true.
Proof.
  pose proof (Z.quot_rem' (Z.lor r 1) 2) as Hq.
  replace (Z.lor r 1 + Z.rem (Z.lor r 1) 2)
    with (2 * (Z.lor r 1 ÷ 2 + Z.rem (Z.lor r 1) 2)) by lia.
  by rewrite Z.even_mul.
Qed.

(** whatever the two random seeds, crossed pings leave both counters even *)
Lemma crossed_pings_both_even (ra rb : Z) :
  let w := run (crossed_handshake_of ra rb
                ++ [AOp SideA some_call; AOp SideB some_call]) two_windows in
  ∃ ia ib, request_ids (w_log (win_A w)) = [ia]
           ∧ request_ids (w_log (win_B w)) = [ib]
           ∧ Z.even ia = true ∧ Z.even ib = true.
Proof.
  cbv zeta. eexists _, _. split; [|split; [|split]].
  3,4: apply seed_rounds_to_even.
  all: vm_compute; reflexivity.
Qed.

(** C1: the code at the failing input.  When both windows are listening
    before either ping arrives, each receives a ping, each takes the branch
    of [onReady] that makes its counter even, and both hand out the same
    transaction id (12 here, from the seeds 4 and 10). *)
Theorem crossed_pings_share_ids :
  let w := run (crossed_handshake
                ++ [AOp SideA some_call; AOp SideA some_call; AOp SideA some_call;
                    AOp SideA some_call; AOp SideB some_call]) two_windows in
  (ready <$> w_chan (win_A w)) = Some true
  ∧ (ready <$> w_chan (win_B w)) = Some true
  ∧ request_ids (w_log (win_A w)) = [6; 8; 10; 12]
  ∧ request_ids (w_log (win_B w)) = [12].
Proof. vm_compute. by repeat split. Qed.

(** when only one ping arrives, the ids of the two sides differ in parity *)
Example sequential_pings_disjoint :
  let w := run (sequential_handshake
                ++ [AOp SideA some_call; AOp SideA some_call;
                    AOp SideB some_call; AOp SideB some_call]) two_windows in
  request_ids (w_log (win_A w)) = [6; 8]
  ∧ request_ids (w_log (win_B w)) = [11; 13].
Proof. vm_compute. by repeat split. Qed.

(** C3: the code at the failing input.  Two notifications issued before the
    handshake leave the queue newest first: [pendingQueue.pop()] takes the
    last element. *)
Theorem early_sends_leave_reversed :
  posted (w_log (win_A (run early_sends two_windows)))
  = [notification_frame "__ready" (VStr "ping");
     notification_frame "__ready" (VStr "pong");
     notification_frame "second" (VNum 2);
     notification_frame "first" (VNum 1)].
Proof. vm_compute. reflexivity. Qed.

(** C2 fails as stated: a ping leaves the odd counter 5 at the even 6, and
    a pong leaves it at 5. *)
Lemma handshake_parity_swapped :
  curTranId (st_of (onMessage ping_event (fresh_chan "https://b.example" 5))) = 6
  ∧ curTranId (st_of (onMessage pong_event (fresh_chan "https://b.example" 5))) = 5.
Proof. split; vm_compute; reflexivity. Qed.

Lemma ready_handshake_witness :
  let st := fresh_chan "https://b.example" 5 in
  let r := onMessage ping_event st in
  result_of r = Ok tt
  ∧ ready (st_of r) = true
  ∧ curTranId (st_of r) = 5 + Z.rem 5 2
  ∧ (Z.odd 5 = true → Z.odd (curTranId (st_of r)) = false)
  ∧ chanId (st_of r) = "abcde" +:+ "-R"
  ∧ regTbl (st_of r) = delete "__ready" (regTbl st)
  ∧ pendingQueue (st_of r) = []
  ∧ posted (events_of r) = [notification_frame "__ready" (VStr "pong")] ++ rev [].
Proof.
  apply (ready_handshake (fresh_chan "https://b.example" 5) ping_event);
    [right; reflexivity | reflexivity | reflexivity | reflexivity | reflexivity].
Defined.

Lemma origin_isolation_witness :
  onMessage foreign_event (fresh_chan "https://x.example" 7)
  = (Ok tt, fresh_chan "https://x.example" 7, []).
Proof. apply origin_isolation; cbn; congruence. Defined.

Example unknown_callback_dropped :
  let r := onMessage (MessageEvent "https://b.example" (progress_frame 5 "other" VNull))
             busy_chan in
  result_of r = Ok tt ∧ st_of r = busy_chan
  ∧ posted (events_of r) = [] ∧ applied (events_of r) = [] ∧ handled (events_of r) = [].
Proof.
  apply (mismatch_dropped busy_chan
           (MessageEvent "https://b.example" (progress_frame 5 "other" VNull))).
  apply (mismatch_progress _ _ 5 "other"); try reflexivity; try discriminate.
  right; right. eexists. split_and!; reflexivity.
Qed.

(** C7: the code at the failing input.  The channel [busy_chan] has the
    one method echo bound.  A request for the method toString, which
    nobody bound, finds [Object.prototype.toString] through
    [regTbl[m.method]]: it is entered as a handler and its result is sent
    to the peer as the answer. *)
Theorem inherited_method_is_answered :
  let r := onMessage (request_event 9 "toString" VNull) busy_chan in
  regTbl busy_chan !! "toString" = None
  ∧ result_of r = Ok tt
  ∧ handled (events_of r) = [("toString", TransObj, VNull)]
  ∧ posted (events_of r) = [result_frame 9 (VStr "[object Object]")].
Proof. vm_compute. by repeat split. Qed.

Lemma notification_fire_and_forget_witness :
  let st := ready_chan "https://b.example" 7 {[ "note" := HUser (thrower (VStr "boom")) ]} in
  let r := onMessage note_event st in
  handled (events_of r) = [("note", NullTrans, VNum 1)]
  ∧ result_of r = Throw (VStr "boom")
  ∧ posted (events_of r) = []
  ∧ applied (events_of r) = []
  ∧ st_of r = st.
Proof.
  apply (notification_fire_and_forget
           (ready_chan "https://b.example" 7 {[ "note" := HUser (thrower (VStr "boom")) ]})
           note_event "note" (thrower (VStr "boom")));
    [right; reflexivity | reflexivity | reflexivity | discriminate | reflexivity].
Defined.

Lemma request_overwrites_witness :
  let e := request_event 5 "echo" (VNum 1) in
  let r := onMessage e busy_chan in
  r = prepend (got_events busy_chan e)
        (request_body 5 "echo" (HUser echo) (e_data e)
           (set_tranTbl (<[5 := TIn]> (tranTbl busy_chan)) busy_chan))
  ∧ (tranTbl (st_of r) !! 5 = None ∨ tranTbl (st_of r) !! 5 = Some TIn)
  ∧ ∀ r0 f,
      tranTbl busy_chan !! 5 = Some (TOut r0) → cont_of r0 f →
      (∀ j r', j ≠ 5 → tranTbl busy_chan !! j = Some (TOut r') → ¬ cont_of r' f) →
      ∀ l, (∀ o, IOp o ∈ l → ¬ op_passes f o) →
      ∀ args, (f, args) ∉ applied (events_of r ++ (feed_all l (st_of r)).2).
Proof.
  apply (request_overwrites busy_chan (request_event 5 "echo" (VNum 1)) 5 "echo" (HUser echo));
    [right; reflexivity | reflexivity | discriminate | reflexivity | discriminate | reflexivity].
Defined.



(** the four shapes, and the fallback, at work *)
Example thrown_string_sent :
  error_sent (VStr "boom") = [error_frame 4 (VStr "runtime_error") (VStr "boom")].
Proof. vm_compute. reflexivity. Qed.

Example thrown_pair_sent :
  error_sent (VArr 2 [("0", VStr "denied"); ("1", VStr "no")])
  = [error_frame 4 (VStr "denied") (VStr "no")].
Proof. vm_compute. reflexivity. Qed.

Example thrown_object_sent :
  error_sent (VObj [("error", VStr "E"); ("message", VObj [("n", VNum 1)])])
  = [error_frame 4 (VStr "E") (VStr ("{" +:+ dquote +:+ "n" +:+ dquote +:+ ":1}"))].
Proof. vm_compute. reflexivity. Qed.

Example thrown_number_sent :
  error_sent (VNum 42) = [error_frame 4 (VStr "runtime_error") (VStr "42")].
Proof. vm_compute. reflexivity. Qed.

Example thrown_unserialisable_sent :
  error_sent (VObj [("toJSON", VFun (Faulty "f"))])
  = [error_frame 4 (VStr "runtime_error") (VStr "[object Object]")].
Proof. vm_compute. reflexivity. Qed.




(** the callback scenario, run: the peer's handler is given a synthetic
    function under cb, and the progress frame it posts enters the caller's
    function *)
Example named_callback_routed :
  handled (events_of (onMessage (stream_request named_callback) peer))
  = [("stream", TransObj,
      VObj [("opts", VObj [("n", VNum 1)]); ("cb", VFun (Synth 7 ["cb"] "cb"))])]
  ∧ applied (events_of (onMessage (stream_progress "cb")
                          (st_of (call (stream_call named_callback) caller))))
    = [(Local "progress", [VNum 1])].
Proof. split; vm_compute; reflexivity. Qed.

(** * The scenarios of the specification, run *)

Example echo_call :
  applied (w_log (win_A (run scenario_echo two_windows)))
  = [(Local "done", [VObj [("x", VNum 1)]])].
Proof. vm_compute. reflexivity. Qed.

Example progress_then_result :
  applied (w_log (win_A (run scenario_progress two_windows)))
  = [(Local "f", [VObj [("n", VNum 1)]]); (Local "f", [VObj [("n", VNum 2)]]);
     (Local "done", [VStr "done"])].
Proof. vm_compute. reflexivity. Qed.

Example delayed_return :
  applied (w_log (win_A (run scenario_delayed two_windows))) = []
  ∧ applied (w_log (win_A (run (scenario_delayed
                                  ++ [AOp SideB (OTransComplete 6 (VStr "ok"));
                                      ADeliver SideA]) two_windows)))
    = [(Local "done", [VStr "ok"])].
Proof. split; vm_compute; reflexivity. Qed.

Example thrown_string :
  applied (w_log (win_A (run scenario_thrown two_windows)))
  = [(Local "failed", [VStr "runtime_error"; VStr "boom"])].
Proof. vm_compute. reflexivity. Qed.

Example duplicate_bind :
  let st := ready_chan "*" 7 {[ "m" := HUser echo ]} in
  bind "m" (HUser delayer) st = (Throw (VStr "method 'm' is already bound!"), st, []).
Proof. vm_compute. reflexivity. Qed.

Example build_trims_origin :
  cfg_origin <$> (match build (Config (Some "https://x.example:8080/path") (Some "s")
                                 false false false) 4 "aaaaa" with
                  | Ok c => Some c
                  | Throw _ => None
                  end)
  = Some (Some "https://x.example:8080").
Proof. vm_compute. reflexivity. Qed.

Example build_refuses_scope :
  build (Config (Some "*") (Some "a::b") false false false) 4 "aaaaa"
  = Throw (VStr "scope may not contain double colons: '::'").
Proof. vm_compute. reflexivity. Qed.
Example split_slash_ab : split_slash "a/b" = ["a"; "b"].
Proof. reflexivity. Qed.
Example split_slash_empty : split_slash "" = [""].
Proof. reflexivity. Qed.
Example split_dcolon_scoped : split_dcolon "s::echo" = ["s"; "echo"].
Proof. reflexivity. Qed.
Example split_dcolon_three : split_dcolon ":::" = [""; ":"].
Proof. reflexivity. Qed.
Example index_of_key_12 : index_of_key "12" = Some 12%nat.
Proof. vm_compute. reflexivity. Qed.
Example index_of_key_012 : index_of_key "012" = None.
Proof. vm_compute. reflexivity. Qed.
Example stringify_obj :
  JSON_stringify (VObj [("x", VNum 1); ("f", VFun (Local "g")); ("s", VStr "a")])
  = Some ("{" +:+ dquote +:+ "x" +:+ dquote +:+ ":1," +:+ dquote +:+ "s" +:+ dquote
          +:+ ":" +:+ dquote +:+ "a" +:+ dquote +:+ "}").
Proof. vm_compute. reflexivity. Qed.
Example stringify_arr_hole :
  JSON_stringify (VArr 2 [("1", VNum 7)]) = Some "[null,7]".
Proof. vm_compute. reflexivity. Qed.
Example jsonify_arr_hole :
  jsonify (VArr 2 [("1", VNum 7); ("x", VNum 3)]) = VArr 2 [("0", VNull); ("1", VNum 7)].
Proof. vm_compute. reflexivity. Qed.

(** * Further properties of the channel *)

(** ** The transaction object *)


Lemma trans_error_open id err msg st :
  tranTbl st !! id = Some TIn → ready st = true →
  trans_error id err msg st
  = (Ok tt, set_tranTbl (delete id (tranTbl st)) st, post_events st (error_frame id err msg)).
Proof.
  intros Ht Hr. unfold trans_error. rewrite seqM_get, Ht, seqM_modify.
  by rewrite postMessage_ready.
Qed.






(** ** The request branch *)


Lemma try_catch_seq_raise {A B} (m : M A) (k : A → M B) h st x st1 ev1 :
  m st = (Throw x, st1, ev1) →
  try_catch (seqM m k) h st = prepend ev1 (h x st1).
Proof.
  intros Hm. unfold try_catch, seqM. rewrite Hm.
  by destruct (h x st1) as [[r st3] ev3].
Qed.

Lemma onMessage_request st e id method h :
  origin_accepted st e →
  f_id (e_data e) = Some id → id ≠ 0 →
  descope (cfg_scope st) (f_method (e_data e)) = Some (Some method) → method ≠ "" →
  regTbl st !! method = Some h →
  onMessage e st
  = prepend (got_events st e)
      (request_body id method h (e_data e) (set_tranTbl (<[id := TIn]> (tranTbl st)) st)).
Proof.
  intros Ho Hid Hne Hd Hm Hreg. erewrite onMessage_accepted by done. cbn zeta.
  rewrite Hid, truthy_num_Some, truthy_str_Some by done. cbn [andb from_option Datatypes.id].
  rewrite (reg_get_own _ _ _ Hreg). unfold handle_request. by rewrite seqM_modify.
Qed.



Lemma set_tranTbl_twice t t' st : set_tranTbl t (set_tranTbl t' st) = set_tranTbl t st.
Proof. reflexivity. Qed.


Ltac evs :=
  repeat (progress
    (rewrite ?posted_app, ?handled_app, ?applied_app, ?posted_got_events,
       ?handled_got_events, ?applied_got_events, ?posted_post_events,
       ?handled_post_events, ?applied_post_events, ?app_nil_r;
     cbn [posted handled applied app])).



Lemma install_null path f : install VNull (split_slash path) f = None.
Proof.
  pose proof (split_slash_not_nil path) as Hne.
  destruct (split_slash path) as [|k [|k2 ks]]; done.
Qed.

Lemma install_undef path f : install VUndef (split_slash path) f = None.
Proof.
  pose proof (split_slash_not_nil path) as Hne.
  destruct (split_slash path) as [|k [|k2 ks]]; done.
Qed.

(** X9.  Callbacks without params.  A request names at least one callback
    path but its params are null or absent.  Storing the first callback
    raises a TypeError inside the try block, so the bound function is not
    entered, and the request is answered with the error frame whose code
    is runtime_error and whose message is the serialised TypeError, the
    text of an empty object. *)
Theorem callbacks_without_params st e id method h p ps :
  origin_accepted st e → ready st = true →
  f_id (e_data e) = Some id → id ≠ 0 →
  descope (cfg_scope st) (f_method (e_data e)) = Some (Some method) → method ≠ "" →
  regTbl st !! method = Some h →
  f_callbacks (e_data e) = Some (p :: ps) →
  f_params (e_data e) = VNull ∨ f_params (e_data e) = VUndef →
  let r := onMessage e st in
  result_of r = Ok tt
  ∧ handled (events_of r) = []
  ∧ posted (events_of r) = [error_frame id (VStr "runtime_error") (VStr "{}")]
  ∧ st_of r = set_tranTbl (delete id (tranTbl st)) st.
Proof.
  intros Ho Hr Hid Hne Hd Hm Hreg Hcb Hp r. subst r.
  erewrite onMessage_request by done.
  unfold request_body. rewrite Hcb. cbn [from_option Datatypes.id install_callbacks].
  assert (install (f_params (e_data e)) (split_slash p)
            (VFun (Synth id (p :: ps) p)) = None) as ->.
  { destruct Hp as [-> | ->]; [apply install_null | apply install_undef]. }
  cbn [mbind option_bind].
  erewrite try_catch_seq_raise by reflexivity. rewrite prepend_nil.
  change (normalize_error native_error) with (Some (VStr "runtime_error", VStr "{}")).
  cbv beta iota.
  rewrite trans_error_open by (try apply lookup_insert_eq; done).
  unfold result_of, st_of, events_of, prepend; cbn [fst snd].
  evs. repeat split; try done.
  rewrite set_tranTbl_twice. stsimpl. by rewrite delete_insert_eq.
Qed.




Lemma callbacks_without_params_witness :
  let st := server "echo" echo in
  let e := MessageEvent "https://b.example" (request_frame 3 "echo" VNull (Some ["cb"])) in
  let r := onMessage e st in
  result_of r = Ok tt
  ∧ handled (events_of r) = []
  ∧ posted (events_of r) = [error_frame 3 (VStr "runtime_error") (VStr "{}")]
  ∧ st_of r = set_tranTbl (delete 3 (tranTbl st)) st.
Proof.
  apply (callbacks_without_params (server "echo" echo)
           (MessageEvent "https://b.example" (request_frame 3 "echo" VNull (Some ["cb"])))
           3 "echo" (HUser echo) "cb" []);
    [right; reflexivity | reflexivity | reflexivity | discriminate | reflexivity
    | discriminate | reflexivity | reflexivity | left; reflexivity].
Defined.

(** ** The response and progress branches *)

Lemma accepted_or_rejected st e :
  origin_accepted st e ∨ (cfg_origin st ≠ Some "*" ∧ cfg_origin st ≠ Some (e_origin e)).
Proof.
  unfold origin_accepted.
  destruct (decide (cfg_origin st = Some "*")); [by left; left|].
  destruct (decide (cfg_origin st = Some (e_origin e))); [by left; right|]. by right.
Qed.

Lemma onMessage_response st e id :
  origin_accepted st e →
  f_id (e_data e) = Some id → id ≠ 0 →
  truthy_str (f_method (e_data e)) = false →
  truthy_str (f_callback (e_data e)) = false →
  negb (is_undef (f_result (e_data e))) || truthy (f_error (e_data e)) = true →
  onMessage e st = prepend (got_events st e) (handle_response id (e_data e) st).
Proof.
  intros Ho Hid Hne Hm Hcb Hres.
  erewrite onMessage_accepted by (by try apply descope_unscoped). cbn zeta.
  rewrite Hid, Hm, Hcb, truthy_num_Some, Hres by done. reflexivity.
Qed.

Lemma onMessage_progress st e id cb :
  origin_accepted st e →
  f_id (e_data e) = Some id → id ≠ 0 →
  truthy_str (f_method (e_data e)) = false →
  f_callback (e_data e) = Some cb → cb ≠ "" →
  onMessage e st = prepend (got_events st e) (handle_callback id cb (e_data e) st).
Proof.
  intros Ho Hid Hne Hm Hcb Hcbne.
  erewrite onMessage_accepted by (by try apply descope_unscoped). cbn zeta.
  rewrite Hid, Hm, Hcb, truthy_num_Some, truthy_str_Some by done. reflexivity.
Qed.

Lemma dropped_rejected st e :
  cfg_origin st ≠ Some "*" → cfg_origin st ≠ Some (e_origin e) → dropped st e.
Proof. intros H1 H2. unfold dropped. by rewrite onMessage_rejected. Qed.

Lemma dropped_got st e : onMessage e st = (Ok tt, st, got_events st e) → dropped st e.
Proof.
  intros H. unfold dropped. rewrite H. unfold result_of, st_of, events_of; cbn [fst snd].
  by evs.
Qed.

(** X4.  A result is delivered once, to a success function that
    returns.  A final response without an error code, whose id keys an open
    outbound transaction, enters the success function of that call with
    the result.  When the function returns, the transaction is removed, no
    frame is posted, and the same response arriving again is dropped.
    When the function raises, the error leaves the listener and the
    transaction stays in the table.  When the function is a proxy that the
    router made, entering it is a [trans.invoke] with the result. *)
Theorem result_delivered_once st e id r0 :
  origin_accepted st e →
  f_id (e_data e) = Some id → id ≠ 0 →
  truthy_str (f_method (e_data e)) = false →
  truthy_str (f_callback (e_data e)) = false →
  f_result (e_data e) ≠ VUndef → truthy (f_error (e_data e)) = false →
  tranTbl st !! id = Some (TOut r0) →
  let r := onMessage e st in
  match o_success r0 with
  | Local name =>
      result_of r = Ok tt
      ∧ applied (events_of r) = [(Local name, [f_result (e_data e)])]
      ∧ posted (events_of r) = []
      ∧ st_of r = set_tranTbl (delete id (tranTbl st)) st
      ∧ dropped (st_of r) e
  | Faulty name =>
      result_of r = Throw native_error
      ∧ applied (events_of r) = [(Faulty name, [f_result (e_data e)])]
      ∧ posted (events_of r) = []
      ∧ st_of r = st
  | Synth id' callbacks cbName =>
      r = prepend (got_events st e)
            ((trans_invoke id' callbacks cbName (f_result (e_data e)) ;;
              modify (λ st, set_tranTbl (delete id (tranTbl st)) st)) st)
  end.
Proof.
  intros Ho Hid Hne Hm Hcb Hres Herr Ht r.
  assert (negb (is_undef (f_result (e_data e))) || truthy (f_error (e_data e)) = true) as Hor.
  { destruct (f_result (e_data e)); done. }
  assert (r = prepend (got_events st e)
                ((enter (o_success r0) [f_result (e_data e)] ;;
                  modify (λ st, set_tranTbl (delete id (tranTbl st)) st)) st)) as ->.
  { subst r. rewrite (onMessage_response st e id) by done.
    unfold handle_response. by rewrite seqM_get, Ht, Herr. }
  destruct (o_success r0) as [name|name|id' cbs cb']; cbn [enter hd].
  - rewrite seqM_emit. unfold result_of, st_of, events_of, prepend, modify; cbn [fst snd]. evs.
    split_and!; try done.
    apply dropped_got. rewrite (onMessage_response _ e id) by done.
    unfold handle_response. rewrite seqM_get. stsimpl. rewrite lookup_delete_eq.
    by rewrite prepend_ret.
  - rewrite seqM_assoc, seqM_emit, seqM_throw.
    unfold result_of, st_of, events_of, prepend; cbn [fst snd]. by evs.
  - reflexivity.
Qed.

(** X5.  An error response.  A final response with a truthy error code,
    whose id keys an open outbound transaction, enters the error function
    of that call with the code and the message, whether or not the frame
    carries a result as well.  When the function returns, the transaction
    is removed.  When it raises, or when the call gave no error function
    (a TypeError), the error leaves the listener and the transaction stays
    in the table.  When the function is a proxy that the router made,
    entering it is a [trans.invoke] with the code. *)
Theorem error_response_needs_error_function st e id r0 :
  origin_accepted st e →
  f_id (e_data e) = Some id → id ≠ 0 →
  truthy_str (f_method (e_data e)) = false →
  truthy_str (f_callback (e_data e)) = false →
  truthy (f_error (e_data e)) = true →
  tranTbl st !! id = Some (TOut r0) →
  let r := onMessage e st in
  match o_error r0 with
  | Some (Local name) =>
      result_of r = Ok tt
      ∧ applied (events_of r) = [(Local name, [f_error (e_data e); f_message (e_data e)])]
      ∧ posted (events_of r) = []
      ∧ st_of r = set_tranTbl (delete id (tranTbl st)) st
  | Some (Faulty name) =>
      result_of r = Throw native_error
      ∧ applied (events_of r) = [(Faulty name, [f_error (e_data e); f_message (e_data e)])]
      ∧ posted (events_of r) = []
      ∧ st_of r = st
  | Some (Synth id' callbacks cbName) =>
      r = prepend (got_events st e)
            ((trans_invoke id' callbacks cbName (f_error (e_data e)) ;;
              modify (λ st, set_tranTbl (delete id (tranTbl st)) st)) st)
  | None =>
      result_of r = Throw native_error
      ∧ applied (events_of r) = []
      ∧ posted (events_of r) = []
      ∧ st_of r = st
  end.
Proof.
  intros Ho Hid Hne Hm Hcb Herr Ht r. subst r.
  rewrite (onMessage_response st e id) by (by rewrite ?Herr, ?orb_true_r).
  unfold handle_response. rewrite seqM_get, Ht, Herr.
  destruct (o_error r0) as [[name|name|id' cbs cb']|]; cbn [enter hd].
  - rewrite seqM_emit. unfold result_of, st_of, events_of, prepend, modify; cbn [fst snd].
    by evs.
  - rewrite seqM_assoc, seqM_emit, seqM_throw.
    unfold result_of, st_of, events_of, prepend; cbn [fst snd]. by evs.
  - reflexivity.
  - rewrite seqM_throw. unfold result_of, st_of, events_of, prepend; cbn [fst snd].
    by evs.
Qed.

(** X6.  Progress leaves the transaction open.  A progress frame whose id
    keys an open outbound transaction and whose callback name the call
    declared enters the function the call held under that name, with the
    frame's params.  When the function returns, the channel is unchanged
    and no frame is posted, so the same frame arriving [n] times enters
    the function [n] times.  When it raises, the error leaves the listener
    and the channel is unchanged.  When the function is a proxy that the
    router made, entering it is a [trans.invoke] with the params. *)
Theorem progress_keeps_transaction st e id cb r0 f n :
  origin_accepted st e → listening st = true →
  f_id (e_data e) = Some id → id ≠ 0 →
  truthy_str (f_method (e_data e)) = false →
  f_callback (e_data e) = Some cb → cb ≠ "" →
  tranTbl st !! id = Some (TOut r0) → o_callbacks r0 !! cb = Some f →
  match f with
  | Local _ =>
      onMessage e st = (Ok tt, st, got_events st e ++ [EApply f [f_params (e_data e)]])
      ∧ (feed_all (repeat (IMessage e) n) st).1 = st
      ∧ applied (feed_all (repeat (IMessage e) n) st).2 = repeat (f, [f_params (e_data e)]) n
      ∧ posted (feed_all (repeat (IMessage e) n) st).2 = []
  | Faulty _ =>
      onMessage e st
      = (Throw native_error, st, got_events st e ++ [EApply f [f_params (e_data e)]])
  | Synth id' callbacks cbName =>
      onMessage e st
      = prepend (got_events st e) (trans_invoke id' callbacks cbName (f_params (e_data e)) st)
  end.
Proof.
  intros Ho Hl Hid Hne Hm Hcb Hcbne Ht Hc.
  assert (onMessage e st = prepend (got_events st e) (enter f [f_params (e_data e)] st))
    as Hone.
  { rewrite (onMessage_progress st e id cb) by done.
    unfold handle_callback. by rewrite seqM_get, Ht, Hc. }
  destruct f as [name|name|id' cbs cb']; [| exact Hone | exact Hone].
  change (onMessage e st
          = (Ok tt, st, got_events st e ++ [EApply (Local name) [f_params (e_data e)]]))
    in Hone.
  split; [done|].
  induction n as [|n (IH1 & IH2 & IH3)]; [done|].
  cbn [repeat feed_all feed fst snd]. rewrite seqM_get, Hl, Hone.
  unfold st_of, events_of; cbn [fst snd]. rewrite IH1. evs. by rewrite IH2, IH3.
Qed.

(** X3.  A response without result and without error code is lost.  A
    final response whose result is undefined once serialised (the bound
    function returned undefined or a function) or whose error code is falsy
    (an empty string, 0, null, false) is not recognised as a response: it
    is dropped, and an outbound transaction its id keys stays open, its
    success and error functions never entered by this frame. *)
Theorem response_without_result_is_lost st o id :
  (∀ v, jsonify v = VUndef → dropped st (MessageEvent o (wire (result_frame id v))))
  ∧ (∀ err msg, truthy (jsonify err) = false →
       dropped st (MessageEvent o (wire (error_frame id err msg)))).
Proof.
  assert (∀ m, f_method m = None → f_callback m = None →
               f_result m = VUndef → truthy (f_error m) = false →
               dropped st (MessageEvent o m)) as H.
  { intros m Hm Hcb Hres Herr.
    destruct (accepted_or_rejected st (MessageEvent o m)) as [Ho | [H1 H2]];
      [|by apply dropped_rejected].
    apply dropped_got.
    erewrite onMessage_accepted by (try apply descope_unscoped; cbn; by rewrite ?Hm).
    cbn zeta. cbn [e_data]. rewrite Hm, Hcb, Hres, Herr. cbn [truthy_str is_undef negb orb].
    rewrite !andb_false_r. by rewrite prepend_ret. }
  split.
  - intros v Hv. apply H; first [done | cbn; by rewrite Hv].
  - intros err msg He. by apply H.
Qed.

Lemma result_delivered_once_witness :
  let e := MessageEvent "https://b.example" (result_frame 5 (VNum 1)) in
  let r := onMessage e busy_chan in
  result_of r = Ok tt
  ∧ applied (events_of r) = [(Local "done", [VNum 1])]
  ∧ posted (events_of r) = []
  ∧ st_of r = set_tranTbl (delete 5 (tranTbl busy_chan)) busy_chan
  ∧ dropped (st_of r) e.
Proof.
  apply (result_delivered_once busy_chan
           (MessageEvent "https://b.example" (result_frame 5 (VNum 1))) 5
           (OutTran {[ "cb" := Local "progress" ]} (Some (Local "failed")) (Local "done")));
    [right; reflexivity | reflexivity | discriminate | reflexivity | reflexivity
    | discriminate | reflexivity | reflexivity].
Defined.

Lemma error_response_needs_error_function_witness :
  let e := MessageEvent "https://b.example" (error_frame 5 (VStr "bad") (VStr "no")) in
  let r := onMessage e busy_chan in
  result_of r = Ok tt
  ∧ applied (events_of r) = [(Local "failed", [VStr "bad"; VStr "no"])]
  ∧ posted (events_of r) = []
  ∧ st_of r = set_tranTbl (delete 5 (tranTbl busy_chan)) busy_chan.
Proof.
  apply (error_response_needs_error_function busy_chan
           (MessageEvent "https://b.example" (error_frame 5 (VStr "bad") (VStr "no"))) 5
           (OutTran {[ "cb" := Local "progress" ]} (Some (Local "failed")) (Local "done")));
    [right; reflexivity | reflexivity | discriminate | reflexivity | reflexivity
    | reflexivity | reflexivity].
Defined.

(** a call without error function, and one whose functions raise: the
    error leaves the listener and the transaction is still there *)
Example error_response_without_function :
  let st := set_tranTbl {[ 5 := TOut (OutTran ∅ None (Local "done")) ]} busy_chan in
  let r := onMessage (MessageEvent "https://b.example"
                        (error_frame 5 (VStr "bad") (VStr "no"))) st in
  result_of r = Throw native_error ∧ applied (events_of r) = [] ∧ st_of r = st.
Proof. vm_compute. by repeat split. Qed.

Example raising_success_keeps_transaction :
  let st := set_tranTbl {[ 5 := TOut (OutTran ∅ None (Faulty "oops")) ]} busy_chan in
  let e := MessageEvent "https://b.example" (result_frame 5 (VNum 1)) in
  let r := onMessage e st in
  result_of r = Throw native_error ∧ st_of r = st
  ∧ applied (feed_all [IMessage e; IMessage e] st).2
    = [(Faulty "oops", [VNum 1]); (Faulty "oops", [VNum 1])].
Proof. vm_compute. by repeat split. Qed.

Lemma progress_keeps_transaction_witness :
  let e := MessageEvent "https://b.example" (progress_frame 5 "cb" (VNum 1)) in
  onMessage e busy_chan
  = (Ok tt, busy_chan, got_events busy_chan e ++ [EApply (Local "progress") [VNum 1]])
  ∧ (feed_all (repeat (IMessage e) 3) busy_chan).1 = busy_chan
  ∧ applied (feed_all (repeat (IMessage e) 3) busy_chan).2
    = repeat (Local "progress", [VNum 1]) 3
  ∧ posted (feed_all (repeat (IMessage e) 3) busy_chan).2 = [].
Proof.
  apply (progress_keeps_transaction busy_chan
           (MessageEvent "https://b.example" (progress_frame 5 "cb" (VNum 1))) 5 "cb"
           (OutTran {[ "cb" := Local "progress" ]} (Some (Local "failed")) (Local "done"))
           (Local "progress") 3);
    [right; reflexivity | reflexivity | reflexivity | discriminate | reflexivity
    | reflexivity | discriminate | reflexivity | reflexivity].
Defined.

(** ** The registry *)

Lemma set_regTbl_same st : set_regTbl (regTbl st) st = st.
Proof. by destruct st. Qed.

(** X13.  Binding is exclusive and undone by unbinding.  Binding a
    function to a non-empty method name that the registry neither holds
    nor inherits from [Object.prototype] succeeds and stores the function
    under that name.  Any further [bind] of the name raises and leaves the
    registry as it is, and [unbind] returns true and restores the channel
    as it was before the [bind]. *)
Theorem bind_then_unbind method cb st :
  method ≠ "" → reg_get (regTbl st) method = None →
  let r := bind method cb st in
  result_of r = Ok tt
  ∧ events_of r = []
  ∧ regTbl (st_of r) !! method = Some cb
  ∧ (∀ cb', bind method cb' (st_of r)
            = (Throw (VStr ("method '" +:+ method +:+ "' is already bound!")), st_of r, []))
  ∧ unbind method (st_of r) = (Ok true, st, []).
Proof.
  intros Hm Hfree r.
  assert (regTbl st !! method = None) as Hown by (by apply reg_get_None in Hfree as [? _]).
  assert (r = (Ok tt, set_regTbl (<[method := cb]> (regTbl st)) st, [])) as ->.
  { subst r. unfold bind. rewrite bool_decide_eq_false_2 by done.
    by rewrite seqM_get, Hfree. }
  unfold result_of, st_of, events_of; cbn [fst snd].
  split_and!; try done.
  - cbn. apply lookup_insert_eq.
  - intros cb'. unfold bind. rewrite bool_decide_eq_false_2 by done.
    rewrite seqM_get. stsimpl. by rewrite (reg_get_own _ _ cb) by apply lookup_insert_eq.
  - erewrite unbind_bound by (cbn; apply lookup_insert_eq).
    stsimpl. rewrite delete_insert_id by done.
    change (set_regTbl (regTbl st) (set_regTbl (<[method:=cb]> (regTbl st)) st))
      with (set_regTbl (regTbl st) st).
    by rewrite set_regTbl_same.
Qed.

Lemma bind_then_unbind_witness :
  let st := ready_chan "https://b.example" 7 ∅ in
  let r := bind "echo" (HUser echo) st in
  result_of r = Ok tt
  ∧ events_of r = []
  ∧ regTbl (st_of r) !! "echo" = Some (HUser echo)
  ∧ (∀ cb', bind "echo" cb' (st_of r)
            = (Throw (VStr ("method '" +:+ "echo" +:+ "' is already bound!")), st_of r, []))
  ∧ unbind "echo" (st_of r) = (Ok true, st, []).
Proof.
  apply (bind_then_unbind "echo" (HUser echo) (ready_chan "https://b.example" 7 ∅));
    [discriminate | reflexivity].
Defined.

(** a name that the registry inherits counts as bound: it cannot be bound,
    and unbinding it returns true *)
Example inherited_name_counts_as_bound :
  let st := ready_chan "https://b.example" 7 ∅ in
  result_of (bind "toString" (HUser echo) st)
  = Throw (VStr "method 'toString' is already bound!")
  ∧ st_of (bind "toString" (HUser echo) st) = st
  ∧ result_of (unbind "valueOf" st) = Ok true.
Proof. vm_compute. by repeat split. Qed.

(** ** Calls *)

Lemma call_ready m success st :
  c_method m ≠ "" → c_success m = Some success → ready st = true →
  call m st = (Ok tt, after_call st m success, post_events st (call_frame st m)).
Proof.
  intros Hm Hs Hr. rewrite (call_run m success) by done.
  by rewrite postMessage_ready.
Qed.

Lemma request_ids_app a b : request_ids (a ++ b) = request_ids a ++ request_ids b.
Proof.
  induction a as [|ev a IH]; [done|]. cbn [app].
  destruct ev as [o [[id|] [mt|] ? ? ? ? ? ?]| | | | |]; cbn; by rewrite ?IH.
Qed.

Lemma request_ids_call st m : request_ids (post_events st (call_frame st m)) = [curTranId st].
Proof. unfold post_events. by destruct (cfg_postMessageObserver st). Qed.

Lemma ids_from_bounds c n id : id ∈ ids_from c n → c ≤ id ∧ Z.odd id = Z.odd c.
Proof.
  revert c. induction n as [|n IH]; intros c Hin; [by apply elem_of_nil in Hin|].
  cbn in Hin. apply elem_of_cons in Hin as [-> | Hin]; [split; [lia | done]|].
  apply IH in Hin as [Hle Hodd]. split; [lia|].
  rewrite Hodd. rewrite Z.odd_add. cbn. by destruct (Z.odd c).
Qed.

Lemma ids_from_NoDup c n : NoDup (ids_from c n).
Proof.
  revert c. induction n as [|n IH]; intros c; cbn; constructor; [|apply IH].
  intros Hin%ids_from_bounds. lia.
Qed.

Lemma calls_run ms st :
  ready st = true → Forall valid_call ms →
  let r := feed_all (map (λ m, IOp (OCall m)) ms) st in
  request_ids r.2 = ids_from (curTranId st) (length ms)
  ∧ curTranId r.1 = curTranId st + 2 * Z.of_nat (length ms)
  ∧ ready r.1 = true
  ∧ (∀ id t, tranTbl st !! id = Some (TOut t) → id < curTranId st →
             ∃ t', tranTbl r.1 !! id = Some (TOut t'))
  ∧ ∀ id, id ∈ request_ids r.2 → ∃ t, tranTbl r.1 !! id = Some (TOut t).
Proof.
  intros Hr Hv. cbv zeta. revert st Hr.
  induction Hv as [|m ms [Hm [success Hs]] _ IH]; intros st Hr.
  { cbn. split_and!; try done; [lia | eauto | by intros id ?%elem_of_nil]. }
  cbn [map feed_all feed run_op length ids_from fst snd].
  rewrite (call_ready m success) by done.
  unfold st_of, events_of; cbn [fst snd].
  rewrite request_ids_app, request_ids_call.
  destruct (IH (after_call st m success) Hr) as (IH1 & IH2 & IH3 & IH4 & IH5).
  change (curTranId (after_call st m success)) with (curTranId st + 2) in *.
  rewrite IH1, IH2. split_and!; try done; [lia | |].
  - intros id t Ht Hlt. apply (IH4 id t); [|lia].
    cbn. rewrite lookup_insert_ne by lia. done.
  - intros id [-> | Hin]%elem_of_cons.
    + eapply IH4; [apply after_call_lookup | lia].
    + apply IH5. by rewrite IH1.
Qed.

(** X14.  Successive calls take fresh ids.  On a ready channel, calls
    whose arguments pass the checks, and whose params have no property
    named hasOwnProperty or __proto__, post one request each, and their
    ids are the counter, the counter plus 2, plus 4 and so on: all
    different, all of the parity of the counter.  Afterwards the counter
    has advanced by twice the number of calls and every id issued keys an
    outbound transaction. *)
Theorem successive_calls_take_fresh_ids ms st :
  ready st = true → Forall valid_call ms →
  Forall (λ m, walkable (c_params m) = true) ms →
  let r := feed_all (map (λ m, IOp (OCall m)) ms) st in
  request_ids r.2 = ids_from (curTranId st) (length ms)
  ∧ NoDup (request_ids r.2)
  ∧ (∀ id, id ∈ request_ids r.2 → Z.odd id = Z.odd (curTranId st))
  ∧ curTranId r.1 = curTranId st + 2 * Z.of_nat (length ms)
  ∧ ∀ id, id ∈ request_ids r.2 → ∃ t, tranTbl r.1 !! id = Some (TOut t).
Proof.
  intros Hr Hv Hw r. destruct (calls_run ms st Hr Hv) as (Hids & Hcur & _ & _ & Hopen).
  fold r in Hids, Hcur, Hopen. rewrite Hids. split_and!; try done.
  - apply ids_from_NoDup.
  - intros id Hin. by apply ids_from_bounds in Hin as [_ ?].
  - intros id Hin. apply Hopen. by rewrite Hids.
Qed.

Lemma successive_calls_take_fresh_ids_witness :
  let st := caller in
  let ms := [stream_call VNull; stream_call (VNum 1)] in
  let r := feed_all (map (λ m, IOp (OCall m)) ms) st in
  request_ids r.2 = ids_from (curTranId st) (length ms)
  ∧ NoDup (request_ids r.2)
  ∧ (∀ id, id ∈ request_ids r.2 → Z.odd id = Z.odd (curTranId st))
  ∧ curTranId r.1 = curTranId st + 2 * Z.of_nat (length ms)
  ∧ ∀ id, id ∈ request_ids r.2 → ∃ t, tranTbl r.1 !! id = Some (TOut t).
Proof.
  apply (successive_calls_take_fresh_ids [stream_call VNull; stream_call (VNum 1)] caller);
    [reflexivity | | repeat constructor].
  repeat constructor; try discriminate; eexists; reflexivity.
Defined.

(** ** Functions in the parameters of a call *)

Lemma prune_props_function_free ps :
  Forall (λ kv, function_free kv.2 = true → ∀ path, pruneFunctions path kv.2 = (kv.2, [])) ps →
  forallb (λ kv, function_free kv.2) ps = true →
  ∀ path, prune_props path ps = (ps, []).
Proof.
  induction 1 as [|[k x] ps Hx _ IH]; intros Hall path; [done|].
  cbn [forallb snd] in Hall. apply andb_prop in Hall as [Hfx Hfps].
  cbn [prune_props]. rewrite (IH Hfps path). cbn [snd] in Hx.
  destruct x; try done; by rewrite (Hx Hfx (sub_path path k)).
Qed.

Lemma prune_function_free v :
  function_free v = true → ∀ path, pruneFunctions path v = (v, []).
Proof.
  induction v as [| | | | | | ps IH | n ps IH] using value_ind'; intros Hf path; try done.
  - rewrite pruneFunctions_obj. by rewrite (prune_props_function_free ps IH Hf path).
  - rewrite pruneFunctions_arr. by rewrite (prune_props_function_free ps IH Hf path).
Qed.

Lemma prune_props_clean ps :
  Forall (λ kv, ∀ path, (∀ f, kv.2 ≠ VFun f) →
                  function_free (pruneFunctions path kv.2).1 = true
                  ∧ length (pruneFunctions path kv.2).2 = count_functions kv.2) ps →
  ∀ path,
    forallb (λ kv, function_free kv.2) (prune_props path ps).1 = true
    ∧ length (prune_props path ps).2 = list_sum (map (λ kv, count_functions kv.2) ps).
Proof.
  induction 1 as [|[k x] ps Hx _ IH]; intros path; [done|].
  destruct (IH path) as [IH1 IH2]. cbn [snd] in Hx.
  cbn [prune_props map list_sum snd].
  destruct x as [| | | | | g | qs | n qs]; cbn [fst snd forallb function_free length];
    rewrite ?IH1, ?IH2; try done.
  - destruct (Hx (sub_path path k)) as [H1 H2]; [done|].
    rewrite H1, length_app, H2, IH2. done.
  - destruct (Hx (sub_path path k)) as [H1 H2]; [done|].
    rewrite H1, length_app, H2, IH2. done.
Qed.

(** X16.  [pruneFunctions] takes out every function.  The walked value
    has no property named hasOwnProperty or __proto__ at any depth.
    Unless it is itself a function, the tree left behind holds no function
    at any depth, and the walk records one path for each function of the
    tree.  A tree without functions is left as it is, with nothing
    recorded; so walking a walked tree again changes nothing. *)
Theorem prune_removes_every_function v path :
  walkable v = true → (∀ f, v ≠ VFun f) →
  function_free (pruneFunctions path v).1 = true
  ∧ length (pruneFunctions path v).2 = count_functions v
  ∧ (function_free v = true → pruneFunctions path v = (v, []))
  ∧ ∀ path', pruneFunctions path' (pruneFunctions path v).1 = ((pruneFunctions path v).1, []).
Proof.
  intros _ Hroot.
  assert (function_free (pruneFunctions path v).1 = true
          ∧ length (pruneFunctions path v).2 = count_functions v) as [H1 H2].
  { revert path Hroot.
    induction v as [| | | | | g | ps IH | n ps IH] using value_ind'; intros path Hroot;
      try done.
    - by destruct (Hroot g).
    - rewrite pruneFunctions_obj. apply (prune_props_clean ps IH).
    - rewrite pruneFunctions_arr. apply (prune_props_clean ps IH). }
  split_and!; try done.
  - intros Hf. by apply prune_function_free.
  - intros path'. by apply prune_function_free.
Qed.

Lemma prune_removes_every_function_witness :
  let v := named_callback in
  function_free (pruneFunctions "" v).1 = true
  ∧ length (pruneFunctions "" v).2 = count_functions v
  ∧ (function_free v = true → pruneFunctions "" v = (v, []))
  ∧ ∀ path', pruneFunctions path' (pruneFunctions "" v).1 = ((pruneFunctions "" v).1, []).
Proof.
  apply (prune_removes_every_function named_callback ""); [reflexivity | discriminate].
Defined.

(** X15.  A call without functions.  On a ready channel a call whose
    arguments pass the checks and whose params hold no function, and no
    property named hasOwnProperty or __proto__, posts the request with the
    params as given and without a callbacks member, and the outbound
    transaction it records holds no callback. *)
Theorem call_without_functions m success st :
  c_method m ≠ "" → c_success m = Some success → ready st = true →
  function_free (c_params m) = true → walkable (c_params m) = true →
  let r := call m st in
  result_of r = Ok tt
  ∧ posted (events_of r)
    = [request_frame (curTranId st) (scopeMethod (cfg_scope st) (c_method m)) (c_params m) None]
  ∧ tranTbl (st_of r) !! curTranId st = Some (TOut (OutTran ∅ (c_error m) success))
  ∧ curTranId (st_of r) = curTranId st + 2.
Proof.
  intros Hm Hs Hr Hf Hw r. subst r. rewrite (call_ready m success) by done.
  unfold result_of, st_of, events_of; cbn [fst snd]. evs.
  rewrite after_call_lookup. unfold call_frame.
  rewrite (prune_function_free _ Hf ""). done.
Qed.

Lemma call_without_functions_witness :
  let m := stream_call (VObj [("n", VNum 1)]) in
  let r := call m caller in
  result_of r = Ok tt
  ∧ posted (events_of r) = [request_frame 7 "stream" (VObj [("n", VNum 1)]) None]
  ∧ tranTbl (st_of r) !! 7 = Some (TOut (OutTran ∅ None (Local "done")))
  ∧ curTranId (st_of r) = 7 + 2.
Proof.
  apply (call_without_functions (stream_call (VObj [("n", VNum 1)])) (Local "done") caller);
    [discriminate | reflexivity | reflexivity | reflexivity | reflexivity].
Defined.

(** ** Scopes *)

Lemma split_dcolon_not_nil s : split_dcolon s ≠ [].
Proof.
  induction s as [|c r IH]; [done|]. cbn [split_dcolon].
  destruct r as [|c' r']; [by destruct (split_dcolon "")|].
  destruct (decide (c = ":"%char)); [destruct (decide (c' = ":"%char)); [done|]|];
    by destruct (split_dcolon (String c' r')).
Qed.

Lemma split_dcolon_cons_keep c r :
  (∀ c' r', r = String c' r' → ¬ (c = ":"%char ∧ c' = ":"%char)) →
  split_dcolon (String c r)
  = match split_dcolon r with
    | h :: t => String c h :: t
    | [] => [String c EmptyString]
    end.
Proof.
  intros H. cbn [split_dcolon]. destruct r as [|c' r']; [done|].
  destruct (decide (c = ":"%char)) as [Hc|]; [|done].
  destruct (decide (c' = ":"%char)) as [Hc'|]; [|done].
  by destruct (H c' r' eq_refl).
Qed.

Lemma has_dcolon_cons c r :
  has_dcolon (String c r) = false →
  has_dcolon r = false ∧ ∀ c' r', r = String c' r' → ¬ (c = ":"%char ∧ c' = ":"%char).
Proof.
  cbn [has_dcolon]. destruct r as [|c' r']; [done|].
  intros [H1 H2]%orb_false_elim. split; [done|].
  intros ? ? [= <- <-] [-> ->]. done.
Qed.

(** a string without a double colon is one piece *)
Lemma split_dcolon_plain s : has_dcolon s = false → split_dcolon s = [s].
Proof.
  induction s as [|c r IH]; [done|]. intros [Hr Hk]%has_dcolon_cons.
  rewrite split_dcolon_cons_keep by done. by rewrite IH.
Qed.

(** and a string with one is at least two *)
Lemma split_dcolon_pieces s : has_dcolon s = true → (1 < length (split_dcolon s))%nat.
Proof.
  induction s as [|c r IH]; [done|]. intros H.
  destruct r as [|c' r']; [done|].
  destruct (decide (c = ":"%char ∧ c' = ":"%char)) as [[-> ->]|Hk].
  - change (split_dcolon (String ":" (String ":" r'))) with ("" :: split_dcolon r').
    pose proof (split_dcolon_not_nil r'). destruct (split_dcolon r'); [done | cbn; lia].
  - rewrite split_dcolon_cons_keep by (intros ? ? [= <- <-]; exact Hk).
    assert (has_dcolon (String c' r') = true) as Hr.
    { cbn [has_dcolon] in H. apply orb_prop in H as [[Hc Hc']%andb_prop|H]; [|done].
      apply bool_decide_eq_true in Hc, Hc'. by destruct Hk. }
    specialize (IH Hr). destruct (split_dcolon (String c' r')); [cbn in IH; lia | exact IH].
Qed.

Lemma scope_check sc :
  bool_decide (1 < length (split_dcolon sc))%nat = has_dcolon sc.
Proof.
  destruct (has_dcolon sc) eqn:H.
  - apply bool_decide_eq_true. by apply split_dcolon_pieces.
  - apply bool_decide_eq_false. rewrite split_dcolon_plain by done. cbn. lia.
Qed.

(** the first piece of a scoped method name is the scope *)
Lemma split_dcolon_scoped_name s rest :
  has_dcolon s = false → ends_with_colon s = false →
  split_dcolon (s +:+ "::" +:+ rest) = s :: split_dcolon rest.
Proof.
  induction s as [|c r IH]; intros Hd He; [done|].
  apply has_dcolon_cons in Hd as [Hr Hk].
  change (String c r +:+ "::" +:+ rest) with (String c (r +:+ "::" +:+ rest)).
  rewrite split_dcolon_cons_keep.
  - rewrite IH; [done | done |]. destruct r; [done | exact He].
  - intros c' r' Heq [-> ->]. destruct r as [|c2 r2].
    + done.
    + injection Heq as -> _. by apply (Hk ":"%char r2).
Qed.

Lemma append_not_empty s t : s ≠ "" → s +:+ t ≠ "".
Proof. by destruct s. Qed.

Lemma descope_scopeMethod scope m :
  (∀ s, scope = Some s → s ≠ "" →
        has_dcolon s = false ∧ ends_with_colon s = false ∧ has_dcolon m = false) →
  descope scope (Some (scopeMethod scope m)) = Some (Some m).
Proof.
  intros H. destruct scope as [s|]; [|unfold descope; cbn; by rewrite andb_false_r].
  destruct (decide (s = "")) as [->|Hne].
  { unfold descope, scopeMethod. cbn. by rewrite andb_false_r. }
  destruct (H s eq_refl Hne) as (Hd & He & Hm).
  unfold descope, scopeMethod. rewrite bool_decide_eq_false_2 by done.
  rewrite !truthy_str_Some by (try apply append_not_empty; done).
  cbn [andb from_option Datatypes.id].
  rewrite split_dcolon_scoped_name, split_dcolon_plain by done.
  by rewrite bool_decide_eq_true_2.
Qed.

(** X17.  Scoping round trip.  On a channel without a scope, or with the
    empty scope, a method name is sent and received as it is.  With a
    non-empty scope that holds no double colon and does not end in a
    colon, a method name without a double colon is sent as scope::name
    and [onMessage]'s descoping with the same scope gives the name back. *)
Theorem scope_round_trip scope m :
  (∀ s, scope = Some s → s ≠ "" →
        has_dcolon s = false ∧ ends_with_colon s = false ∧ has_dcolon m = false) →
  descope scope (Some (scopeMethod scope m)) = Some (Some m).
Proof. apply descope_scopeMethod. Qed.

Lemma scope_round_trip_witness :
  descope (Some "app") (Some (scopeMethod (Some "app") "echo")) = Some (Some "echo").
Proof. apply (scope_round_trip (Some "app") "echo"). intros s [= <-] _. done. Defined.

Lemma has_dcolon_snoc_colon s :
  has_dcolon (s +:+ ":") = false → has_dcolon s = false ∧ ends_with_colon s = false.
Proof.
  induction s as [|c r IH]; [done|].
  change (String c r +:+ ":") with (String c (r +:+ ":")).
  intros [Hr Hk]%has_dcolon_cons. destruct (IH Hr) as [IH1 IH2].
  destruct r as [|c' r'].
  - cbn. split; [done|]. apply bool_decide_eq_false. intros ->.
    by apply (Hk ":"%char "").
  - split; [|exact IH2].
    change (has_dcolon (String c (String c' r')))
      with ((bool_decide (c = ":"%char) && bool_decide (c' = ":"%char))
            || has_dcolon (String c' r')).
    rewrite IH1, orb_false_r.
    apply andb_false_iff. 
    destruct (decide (c = ":"%char)) as [->|]; [|left; by apply bool_decide_eq_false].
    destruct (decide (c' = ":"%char)) as [->|]; [|right; by apply bool_decide_eq_false].
    by destruct (Hk ":"%char (r' +:+ ":") eq_refl).
Qed.

Lemma append_snoc_neq s : s +:+ ":" ≠ s.
Proof.
  induction s as [|c r IH]; [done|].
  change (String c r +:+ ":") with (String c (r +:+ ":")). by intros [= ?].
Qed.

Lemma append_assoc_colon s rest : (s +:+ ":") +:+ rest = s +:+ ":" +:+ rest.
Proof.
  induction s as [|c r IH]; [done|].
  change ((String c r +:+ ":") +:+ rest) with (String c ((r +:+ ":") +:+ rest)).
  change (String c r +:+ ":" +:+ rest) with (String c (r +:+ ":" +:+ rest)).
  by rewrite IH.
Qed.

(** X18.  A scope that ends in a colon.  [build] accepts a scope that
    holds no double colon but ends in a colon.  A channel with such a scope
    drops every frame whose method name was scoped with that same scope,
    before the observer and the handlers: the double colon is found one
    character early, so the first piece is not the scope.  This includes
    the peer's scoped __ready ping. *)
Theorem scope_ending_in_colon_is_deaf s po go onr random token :
  has_dcolon (s +:+ ":") = false →
  ∃ c, build (Config (Some "*") (Some (s +:+ ":")) po go onr) random token = Ok c
       ∧ cfg_scope c = Some (s +:+ ":")
       ∧ ∀ e m, f_method (e_data e) = Some (scopeMethod (cfg_scope c) m) →
                onMessage e c = (Ok tt, c, []).
Proof.
  intros Hd.
  exists (Chan (Some "*") (Some (s +:+ ":")) po go onr token {[ "__ready" := HReady ]} ∅
            (Z.lor random 1) false [] true).
  split_and!.
  - unfold build. cbn [b_origin b_scope]. rewrite bool_decide_eq_true_2 by done.
    rewrite scope_check, Hd. reflexivity.
  - reflexivity.
  - intros e m Hm. unfold onMessage. rewrite seqM_get.
    rewrite origin_accepted_check by (by left).
    rewrite Hm. stsimpl. unfold descope, scopeMethod.
    assert (s +:+ ":" ≠ "") as Hne by (by destruct s).
    rewrite bool_decide_eq_false_2 by done.
    rewrite !truthy_str_Some by first [exact Hne | apply append_not_empty; exact Hne].
    cbn [andb from_option Datatypes.id].
    destruct (has_dcolon_snoc_colon s Hd) as [Hs He].
    rewrite append_assoc_colon.
    change (":" +:+ "::" +:+ m) with ("::" +:+ (":" +:+ m)).
    rewrite split_dcolon_scoped_name by done.
    destruct (split_dcolon (":" +:+ m)) as [|b [|b' l]]; try done.
    rewrite bool_decide_eq_false_2; [done|]. intros [= Heq]. by apply (append_snoc_neq s).
Qed.

Lemma scope_ending_in_colon_is_deaf_witness :
  ∃ c, build (Config (Some "*") (Some ("app" +:+ ":")) false false false) 4 "aaaaa" = Ok c
       ∧ cfg_scope c = Some ("app" +:+ ":")
       ∧ ∀ e m, f_method (e_data e) = Some (scopeMethod (cfg_scope c) m) →
                onMessage e c = (Ok tt, c, []).
Proof. apply (scope_ending_in_colon_is_deaf "app" false false false 4 "aaaaa"). reflexivity. Defined.

(** ** Construction *)

Lemma strip_prefix_spec p s r : strip_prefix p s = Some r → s = p +:+ r.
Proof.
  revert s. induction p as [|a p IH]; intros s H; [by injection H as ->|].
  destruct s as [|b s]; [done|]. cbn in H. destruct (decide (a = b)) as [->|]; [|done].
  change (String b p +:+ r) with (String b (p +:+ r)). by rewrite <- (IH s H).
Qed.

Lemma strip_prefix_app p r : strip_prefix p (p +:+ r) = Some r.
Proof.
  induction p as [|a p IH]; [done|].
  change (String a p +:+ r) with (String a (p +:+ r)). cbn. by rewrite decide_True.
Qed.

Lemma take_while_spec f s : s = (take_while f s).1 +:+ (take_while f s).2.
Proof.
  induction s as [|c r IH]; [done|]. cbn. destruct (f c); [|done].
  cbn. change (String c ?a +:+ ?b) with (String c (a +:+ b)). by rewrite <- IH.
Qed.

(** the prefix taken satisfies the test throughout, so taking it again
    from a string that goes on with a failing character gives it back *)
Lemma take_while_again f s rest :
  match rest with EmptyString => True | String c _ => f c = false end →
  take_while f ((take_while f s).1 +:+ rest) = ((take_while f s).1, rest).
Proof.
  intros Hrest.
  assert (take_while f rest = ("", rest)) as Hr.
  { destruct rest as [|c' r']; [done|]. cbn [take_while]. by rewrite Hrest. }
  induction s as [|c r IH]; [exact Hr|].
  cbn [take_while]. destruct (f c) eqn:Hc; [|exact Hr].
  cbn [fst]. change (String c ?a +:+ ?b) with (String c (a +:+ b)).
  cbn [take_while]. by rewrite Hc, IH.
Qed.

Lemma append_empty_r s : s +:+ "" = s.
Proof.
  induction s as [|c r IH]; [done|].
  change (String c r +:+ "") with (String c (r +:+ "")). by rewrite IH.
Qed.

Lemma append_assoc a b c : (a +:+ b) +:+ c = a +:+ (b +:+ c).
Proof.
  induction a as [|x a IH]; [done|].
  change ((String x a +:+ b) +:+ c) with (String x ((a +:+ b) +:+ c)).
  change (String x a +:+ (b +:+ c)) with (String x (a +:+ (b +:+ c))).
  by rewrite IH.
Qed.

(** what the origin pattern matches: a scheme, a non-empty run of host
    characters, and a colon with a non-empty run of digits if there is one *)
Lemma match_origin_shape s o :
  match_origin s = Some o →
  ∃ scheme r, (scheme = "https://" ∨ scheme = "http://") ∧ s = scheme +:+ r
    ∧ (take_while is_host_char r).1 ≠ ""
    ∧ ∃ port rest,
        o = scheme +:+ (take_while is_host_char r).1 +:+ port
        ∧ (take_while is_host_char r).2 = port +:+ rest
        ∧ (port = ""
           ∨ ∃ r', (take_while is_host_char r).2 = String ":" r'
                   ∧ (take_while is_digit r').1 ≠ ""
                   ∧ port = ":" +:+ (take_while is_digit r').1
                   ∧ rest = (take_while is_digit r').2).
Proof.
  unfold match_origin. intros H.
  assert (∃ scheme r, (scheme = "https://" ∨ scheme = "http://") ∧ s = scheme +:+ r
            ∧ match (let h := take_while is_host_char r in
                     if bool_decide (h.1 = "") then None
                     else Some (scheme +:+ h.1 +:+
                                match h.2 with
                                | String c r' =>
                                    if decide (c = ":"%char) then
                                      let d := take_while is_digit r' in
                                      if bool_decide (d.1 = "") then "" else ":" +:+ d.1
                                    else ""
                                | EmptyString => ""
                                end)) with
              | Some o' => o' = o
              | None => False
              end) as (scheme & r & Hsch & Hs & Hrest).
  { destruct (strip_prefix "https://" s) as [r|] eqn:H1.
    - exists "https://", r. split; [by left|]. split; [by apply strip_prefix_spec|].
      cbn zeta in *. destruct (bool_decide _); [done|]. by injection H.
    - destruct (strip_prefix "http://" s) as [r|] eqn:H2; [|done].
      exists "http://", r. split; [by right|]. split; [by apply strip_prefix_spec|].
      cbn zeta in *. destruct (bool_decide _); [done|]. by injection H. }
  exists scheme, r. split; [done|]. split; [done|]. cbn zeta in Hrest.
  destruct (bool_decide ((take_while is_host_char r).1 = "")) eqn:Hh; [done|].
  apply bool_decide_eq_false in Hh. split; [done|].
  destruct (take_while is_host_char r).2 as [|c r'] eqn:Ht.
  { exists "", "". split; [done|]. split; [done|]. by left. }
  destruct (decide (c = ":"%char)) as [->|Hc].
  - destruct (bool_decide ((take_while is_digit r').1 = "")) eqn:Hd.
    + exists "", (String ":" r'). split; [done|]. split; [done|]. by left.
    + apply bool_decide_eq_false in Hd.
      exists (":" +:+ (take_while is_digit r').1), (take_while is_digit r').2.
      split; [done|]. split.
      * change (String ":" r' = String ":" ((take_while is_digit r').1 +:+ (take_while is_digit r').2)).
        by rewrite <- take_while_spec.
      * right. exists r'. done.
  - exists "", (String c r'). split; [done|]. split; [done|]. by left.
Qed.

Lemma match_origin_fixed s o : match_origin s = Some o → match_origin o = Some o.
Proof.
  intros (scheme & r & Hsch & -> & Hne & port & rest & -> & Hsplit & Hport)%match_origin_shape.
  set (h := (take_while is_host_char r).1) in *.
  assert (take_while is_host_char (h +:+ port) = (h, port)) as Hh.
  { apply take_while_again. destruct Hport as [-> | (r' & _ & _ & -> & _)]; done. }
  assert (match port with
          | String c r' =>
              if decide (c = ":"%char) then
                if bool_decide ((take_while is_digit r').1 = "") then ""
                else ":" +:+ (take_while is_digit r').1
              else ""
          | EmptyString => ""
          end = port) as Hp.
  { destruct Hport as [-> | (r' & _ & Hd & -> & _)]; [done|].
    change (":" +:+ ?x) with (String ":" x). cbv beta iota.
    rewrite decide_True by done.
    pose proof (take_while_again is_digit r' "" I) as Hagain.
    rewrite append_empty_r in Hagain. rewrite Hagain. cbn [fst].
    by rewrite bool_decide_eq_false_2. }
  unfold match_origin.
  destruct Hsch as [-> | ->].
  - rewrite strip_prefix_app. cbn zeta. rewrite Hh. cbn [fst snd].
    rewrite bool_decide_eq_false_2 by done. by rewrite Hp.
  - assert (strip_prefix "https://" ("http://" +:+ h +:+ port) = None) as -> by done.
    rewrite strip_prefix_app. cbn zeta. rewrite Hh. cbn [fst snd].
    rewrite bool_decide_eq_false_2 by done. by rewrite Hp.
Qed.

Lemma match_origin_prefix s o : match_origin s = Some o → ∃ rest, s = o +:+ rest.
Proof.
  intros (scheme & r & Hsch & -> & Hne & port & rest & -> & Hsplit & Hport)%match_origin_shape.
  exists rest. rewrite !append_assoc. f_equal.
  rewrite (take_while_spec is_host_char r) at 1. by rewrite Hsplit.
Qed.

(** X19.  [build] normalises the origin.  When [build] succeeds the origin
    the channel keeps is the wildcard, given as such, or else the part of
    the configured origin the pattern matched: a prefix of it that the
    pattern matches as a whole, so that normalising again changes
    nothing. *)
Theorem build_normalises_origin cfg random token c :
  build cfg random token = Ok c →
  ∃ o0 o, b_origin cfg = Some o0 ∧ cfg_origin c = Some o
    ∧ (o0 = "*" → o = "*")
    ∧ (o0 ≠ "*" → match_origin o0 = Some o ∧ match_origin o = Some o ∧ ∃ rest, o0 = o +:+ rest).
Proof.
  unfold build. destruct (b_origin cfg) as [o0|]; [|done].
  destruct (bool_decide (o0 = "*")) eqn:Hw; cbv beta iota.
  - apply bool_decide_eq_true in Hw as ->.
    destruct (b_scope cfg) as [sc|]; [destruct (bool_decide _); [done|]|];
      intros [= <-]; exists "*", "*"; done.
  - apply bool_decide_eq_false in Hw. destruct (match_origin o0) as [o|] eqn:Hm; [|done].
    destruct (b_scope cfg) as [sc|]; [destruct (bool_decide _); [done|]|];
      intros [= <-]; exists o0, o; (split_and!; try done); intros _;
      (split_and!; [done | by eapply match_origin_fixed | by apply match_origin_prefix]).
Qed.

Lemma build_normalises_origin_witness :
  ∃ o0 o, b_origin (cfg_to "https://b.example:8080/app/index.html") = Some o0
    ∧ cfg_origin (Chan (Some "https://b.example:8080") None false false false "aaaaa"
                    {[ "__ready" := HReady ]} ∅ 5 false [] true) = Some o
    ∧ (o0 = "*" → o = "*")
    ∧ (o0 ≠ "*" → match_origin o0 = Some o ∧ match_origin o = Some o ∧ ∃ rest, o0 = o +:+ rest).
Proof.
  apply (build_normalises_origin (cfg_to "https://b.example:8080/app/index.html") 4 "aaaaa").
  reflexivity.
Defined.

Lemma lor_one r : 0 ≤ r → Z.lor r 1 = if Z.odd r then r else r + 1.
Proof.
  intros Hr. destruct r as [|p|p]; [done | | lia].
  destruct p; reflexivity.
Qed.

Lemma build_Ok cfg random token c :
  build cfg random token = Ok c →
  c = Chan (cfg_origin c) (b_scope cfg) (b_postMessageObserver cfg) (b_gotMessageObserver cfg)
        (b_onReady cfg) token {[ "__ready" := HReady ]} ∅ (Z.lor random 1) false [] true
  ∧ ∀ sc, b_scope cfg = Some sc → has_dcolon sc = false.
Proof.
  unfold build.
  destruct (match b_origin cfg with Some o => _ | None => None end) as [o|]; [|done].
  destruct (b_scope cfg) as [sc|] eqn:Hsc.
  - rewrite scope_check. destruct (has_dcolon sc) eqn:Hd; [done|].
    intros [= <-]. split; [done|]. by intros ? [= <-].
  - intros [= <-]. done.
Qed.

(** X21.  The channel [build] returns.  With the random number in its
    range, 0 to 1000000, a channel that [build] returns starts with an odd
    transaction counter between 1 and 1000001, not ready, with an empty
    pending queue and an empty transaction table, with its own handler
    bound to __ready and nothing else bound, and with the scope as
    configured, which holds no double colon. *)
Theorem build_initial_state cfg random token c :
  0 ≤ random ≤ 1000000 →
  build cfg random token = Ok c →
  Z.odd (curTranId c) = true ∧ 1 ≤ curTranId c ≤ 1000001
  ∧ ready c = false ∧ pendingQueue c = [] ∧ tranTbl c = ∅
  ∧ regTbl c = {[ "__ready" := HReady ]}
  ∧ chanId c = token
  ∧ cfg_scope c = b_scope cfg
  ∧ ∀ sc, cfg_scope c = Some sc → has_dcolon sc = false.
Proof.
  intros Hr [Hc Hsc]%build_Ok. rewrite Hc. stsimpl.
  rewrite lor_one by lia.
  split_and!; try done.
  - destruct (Z.odd random) eqn:Ho; [done|]. rewrite Z.odd_add, Ho. done.
  - destruct (Z.odd random) eqn:Ho; [|lia].
    assert (random ≠ 0) by (by intros ->). lia.
  - destruct (Z.odd random); lia.
Qed.

Lemma build_initial_state_witness :
  let c := fresh_chan "https://b.example" 5 in
  Z.odd (curTranId c) = true ∧ 1 ≤ curTranId c ≤ 1000001
  ∧ ready c = false ∧ pendingQueue c = [] ∧ tranTbl c = ∅
  ∧ regTbl c = {[ "__ready" := HReady ]}
  ∧ chanId c = "abcde"
  ∧ cfg_scope c = b_scope (cfg_to "https://b.example")
  ∧ ∀ sc, cfg_scope c = Some sc → has_dcolon sc = false.
Proof.
  apply (build_initial_state (cfg_to "https://b.example") 4 "abcde"
           (fresh_chan "https://b.example" 5)); [lia | reflexivity].
Defined.

(** X20.  [build] refuses a scope with a double colon, and no other.
    [build] raises its scope error exactly when the origin is acceptable
    (the wildcard, or a string the origin pattern matches) and the
    configured scope holds two colons in a row: the test on the number of
    pieces of [split('::')] is that. *)
Theorem build_refuses_double_colon cfg random token :
  build cfg random token = Throw (VStr "scope may not contain double colons: '::'")
  ↔ (∃ o, b_origin cfg = Some o ∧ (o = "*" ∨ is_Some (match_origin o)))
    ∧ ∃ sc, b_scope cfg = Some sc ∧ has_dcolon sc = true.
Proof.
  unfold build. split.
  - destruct (b_origin cfg) as [o|]; [|done].
    assert (is_Some (if bool_decide (o = "*") then Some o else match_origin o) →
            o = "*" ∨ is_Some (match_origin o)) as Ho.
    { destruct (bool_decide (o = "*")) eqn:Hw; [|by right].
      apply bool_decide_eq_true in Hw. by left. }
    destruct (if bool_decide (o = "*") then Some o else match_origin o) as [o'|]; [|done].
    destruct (b_scope cfg) as [sc|]; [|done].
    rewrite scope_check. destruct (has_dcolon sc) eqn:Hd; [|done].
    intros _. split; [exists o; split; [done | by apply Ho]|]. by exists sc.
  - intros [(o & -> & Ho) (sc & -> & Hd)].
    assert (is_Some (if bool_decide (o = "*") then Some o else match_origin o)) as [o' ->].
    { destruct Ho as [-> | Ho]; [done|]. by destruct (bool_decide (o = "*")). }
    by rewrite scope_check, Hd.
Qed.

(** ** What an inbound message cannot do *)

Lemma same_settings_refl st : same_settings st st.
Proof. by repeat split. Qed.

Lemma same_settings_trans st1 st2 st3 :
  same_settings st1 st2 → same_settings st2 st3 → same_settings st1 st3.
Proof.
  intros (?&?&?&?&?&?) (?&?&?&?&?&?). unfold same_settings. split_and!; congruence.
Qed.

Lemma same_registry_refl st : same_registry st st.
Proof. by repeat split. Qed.

Lemma same_registry_trans st1 st2 st3 :
  same_registry st1 st2 → same_registry st2 st3 → same_registry st1 st3.
Proof. intros (?&?&?&?) (?&?&?&?). unfold same_registry. split_and!; congruence. Qed.

Lemma steady_compose {A B} (r1 : outcome A * chan * list event)
    (r2 : outcome B * chan * list event) st :
  (same_settings st r1.1.2 ∧ Forall (posts_to (cfg_origin st)) r1.2
   ∧ (ready st = true → same_registry st r1.1.2)) →
  (same_settings r1.1.2 r2.1.2 ∧ Forall (posts_to (cfg_origin r1.1.2)) r2.2
   ∧ (ready r1.1.2 = true → same_registry r1.1.2 r2.1.2)) →
  same_settings st r2.1.2 ∧ Forall (posts_to (cfg_origin st)) (r1.2 ++ r2.2)
  ∧ (ready st = true → same_registry st r2.1.2).
Proof.
  intros (Hs1 & Hp1 & Hr1) (Hs2 & Hp2 & Hr2). split_and!.
  - by eapply same_settings_trans.
  - apply Forall_app. split; [done|]. destruct Hs1 as [Ho _]. by rewrite <- Ho.
  - intros Hr. specialize (Hr1 Hr). eapply same_registry_trans; [done|].
    apply Hr2. destruct Hr1 as (_ & _ & _ & ->). done.
Qed.

Section Steady.
Context {A B : Type}.

Lemma steady_seqM (m : M A) (k : A → M B) st :
  steady_at m st →
  (∀ a st1 ev1, m st = (Ok a, st1, ev1) → steady_at (k a) st1) →
  steady_at (seqM m k) st.
Proof.
  unfold steady_at. intros H1 Hk.
  destruct (m st) as [[[a|e] st1] ev1] eqn:Hm.
  - erewrite seqM_ok by done. specialize (Hk a st1 ev1 eq_refl).
    destruct (k a st1) as [[r st2] ev2].
    apply (steady_compose (Ok a, st1, ev1) (r, st2, ev2) st H1 Hk).
  - erewrite seqM_raise by done. done.
Qed.

Lemma steady_try_catch (m : M A) (h : value → M A) st :
  steady_at m st →
  (∀ e st1 ev1, m st = (Throw e, st1, ev1) → steady_at (h e) st1) →
  steady_at (try_catch m h) st.
Proof.
  unfold steady_at, try_catch. intros H1 Hk.
  destruct (m st) as [[[a|e] st1] ev1] eqn:Hm; [done|].
  specialize (Hk e st1 ev1 eq_refl).
  destruct (h e st1) as [[r st2] ev2].
  apply (steady_compose (@Throw A e, st1, ev1) (r, st2, ev2) st H1 Hk).
Qed.

Lemma steady_attempt (m : M A) st : steady_at m st → steady_at (attempt m) st.
Proof. unfold steady_at, attempt. by destruct (m st) as [[r st1] ev1]. Qed.

Lemma steady_ret (a : A) st : steady_at (ret a) st.
Proof.
  split_and!; [apply same_settings_refl | constructor | intros; apply same_registry_refl].
Qed.

Lemma steady_throw e st : steady_at (@throw A e) st.
Proof.
  split_and!; [apply same_settings_refl | constructor | intros; apply same_registry_refl].
Qed.
End Steady.

Lemma steady_get_seqM {B} (k : chan → M B) st : steady_at (k st) st → steady_at (seqM get k) st.
Proof. intros H. unfold steady_at. by rewrite seqM_get. Qed.

Lemma steady_modify f st :
  same_settings st (f st) → (ready st = true → same_registry st (f st)) →
  steady_at (modify f) st.
Proof. intros H1 H2. split_and!; [done | constructor | done]. Qed.

Lemma steady_emit e st : posts_to (cfg_origin st) e → steady_at (emit e) st.
Proof.
  intros H. split_and!; [apply same_settings_refl | by repeat constructor
                        | intros; apply same_registry_refl].
Qed.

Lemma steady_when b m st : steady_at m st → steady_at (when b m) st.
Proof. destruct b; [done | intros; apply steady_ret]. Qed.

Lemma steady_postMessage msg force st : steady_at (postMessage msg force) st.
Proof.
  unfold postMessage. apply steady_get_seqM.
  destruct (negb force && negb (ready st)) eqn:Hq.
  - apply steady_modify; [done|]. intros Hr. rewrite Hr, andb_false_r in Hq. done.
  - apply steady_seqM; [by apply steady_when, steady_emit|].
    intros [] st1 ev1 H1. apply steady_emit.
    destruct (cfg_postMessageObserver st); injection H1 as <- _; done.
Qed.

Lemma steady_trans_invoke id cbs cb v st : steady_at (trans_invoke id cbs cb v) st.
Proof.
  unfold trans_invoke. apply steady_get_seqM. destruct (tranTbl st !! id); [|apply steady_throw].
  destruct (bool_decide _); [apply steady_postMessage | apply steady_throw].
Qed.

Lemma steady_trans_complete id v st : steady_at (trans_complete id v) st.
Proof.
  unfold trans_complete. apply steady_get_seqM.
  destruct (tranTbl st !! id) as [[|]|]; try apply steady_throw.
  apply steady_seqM; [by apply steady_modify|]. intros. apply steady_postMessage.
Qed.

Lemma steady_trans_error id err msg st : steady_at (trans_error id err msg) st.
Proof.
  unfold trans_error. apply steady_get_seqM.
  destruct (tranTbl st !! id) as [[|]|]; try apply steady_throw.
  apply steady_seqM; [by apply steady_modify|]. intros. apply steady_postMessage.
Qed.

Lemma steady_run_hprog t fl p st : steady_at (run_hprog t fl p) st.
Proof.
  revert fl st. induction p as [v|e|cb v k IH|err msg k IH|v k IH|d k IH|k IH]; intros fl st;
    cbn [run_hprog].
  - apply steady_ret.
  - apply steady_throw.
  - destruct t as [[id cbs]|]; [|apply IH].
    apply steady_seqM; [apply steady_attempt, steady_trans_invoke | intros; apply IH].
  - destruct t as [[id cbs]|]; [|apply IH].
    apply steady_seqM; [apply steady_attempt, steady_trans_error | intros; apply IH].
  - destruct t as [[id cbs]|]; [|apply IH].
    apply steady_seqM; [apply steady_attempt, steady_trans_complete | intros; apply IH].
  - destruct t as [[id cbs]|]; apply IH.
  - destruct t as [[id cbs]|]; apply IH.
Qed.

Lemma steady_notify method params st : steady_at (notify method params) st.
Proof.
  unfold notify. destruct (bool_decide _); [apply steady_throw|].
  apply steady_get_seqM, steady_postMessage.
Qed.

Lemma steady_flush n st : steady_at (flush n) st.
Proof.
  revert st. induction n as [|n IH]; intros st; cbn [flush]; [apply steady_ret|].
  apply steady_get_seqM. destruct (pop (pendingQueue st)) as [[msg rest]|]; [|apply steady_ret].
  apply steady_seqM; [by apply steady_modify|]. intros.
  apply steady_seqM; [apply steady_postMessage | intros; apply IH].
Qed.

Lemma steady_onReady type st : steady_at (onReady type) st.
Proof.
  unfold onReady. apply steady_get_seqM. destruct (ready st) eqn:Hr; [apply steady_throw|].
  assert (∀ (m : M value) s,
            same_settings s (st_of (m s))
            ∧ Forall (posts_to (cfg_origin s)) (events_of (m s)) →
            ready s = false → steady_at m s) as Hweak.
  { intros m s [H1 H2] Hs. split_and!; [done | done | by rewrite Hs]. }
  apply Hweak; [|done].
  assert (∀ {X} (m : M X) s, steady_at m s →
            same_settings s (st_of (m s))
            ∧ Forall (posts_to (cfg_origin s)) (events_of (m s))) as Hdrop.
  { intros X m s (H1 & H2 & _). done. }
  set (first := if is_ping type
                then modify (λ st0, set_curTranId (curTranId st0 + Z.rem (curTranId st0) 2)
                                      (set_chanId (chanId st0 +:+ "-R") st0))
                else modify (λ st0, set_chanId (chanId st0 +:+ "-L") st0)).
  assert (∃ st1, first st = (Ok tt, st1, []) ∧ same_settings st st1 ∧ ready st1 = false
                 ∧ regTbl st1 = regTbl st) as (st1 & Hfirst & Hs1 & Hr1 & Hreg1).
  { unfold first. destruct (is_ping type); eexists; (split; [reflexivity|]); done. }
  erewrite seqM_ok by exact Hfirst. rewrite prepend_nil.
  assert (∃ b st2, unbind "__ready" st1 = (Ok b, st2, []) ∧ same_settings st1 st2
                   ∧ ready st2 = false) as (b & st2 & Hunb & Hs2 & Hr2).
  { destruct (regTbl st1 !! "__ready") as [h|] eqn:Hl.
    - rewrite (unbind_bound _ h) by done. eexists _, _. split; [reflexivity|]. done.
    - rewrite unbind_unbound by (by apply reg_get_None).
      eexists _, _. split; [reflexivity|]. done. }
  erewrite seqM_ok by exact Hunb. rewrite prepend_nil, seqM_modify.
  set (st3 := set_ready true st2).
  assert (same_settings st st3) as Hs3.
  { eapply same_settings_trans; [exact Hs1|]. eapply same_settings_trans; [exact Hs2|]. done. }
  assert (steady_at
            (when (is_ping type) (notify "__ready" (VStr "pong")) ;;
             st0 <- get ;; flush (length (pendingQueue st0)) ;;
             st4 <- get ;; when (cfg_onReady st4) (emit EOnReady) ;; ret VUndef) st3) as Hrest.
  { apply steady_seqM; [apply steady_when, steady_notify|]. intros.
    apply steady_get_seqM. apply steady_seqM; [apply steady_flush|]. intros.
    apply steady_get_seqM. apply steady_seqM; [by apply steady_when, steady_emit|]. intros.
    apply steady_ret. }
  destruct Hrest as (Hr4 & Hp4 & _). split.
  - by eapply same_settings_trans.
  - destruct Hs3 as [Ho _]. by rewrite <- Ho.
Qed.

Lemma steady_run_builtin b t st : steady_at (run_builtin b t) st.
Proof.
  destruct (run_builtin_pure b t st) as [r Hr]. unfold steady_at. rewrite Hr.
  split_and!; [apply same_settings_refl | constructor | intros; apply same_registry_refl].
Qed.

Lemma steady_enter f args st : steady_at (enter f args) st.
Proof.
  destruct f as [name|name|id cbs cb]; cbn [enter].
  - by apply steady_emit.
  - apply steady_seqM; [by apply steady_emit | intros; apply steady_throw].
  - apply steady_trans_invoke.
Qed.

Lemma steady_run_handler method h t params st : steady_at (run_handler method h t params) st.
Proof.
  unfold run_handler. apply steady_seqM; [by apply steady_emit|]. intros.
  destruct h; [|apply steady_run_hprog|].
  - apply steady_seqM; [apply steady_onReady | intros; apply steady_ret].
  - apply steady_seqM; [apply steady_run_builtin | intros; apply steady_ret].
Qed.

Lemma steady_request_body id method h m st : steady_at (request_body id method h m) st.
Proof.
  unfold request_body. apply steady_try_catch.
  - apply steady_seqM.
    { destruct (install_callbacks _ _ _ _); [apply steady_ret | apply steady_throw]. }
    intros. apply steady_seqM; [apply steady_run_handler|]. intros.
    destruct (_ && _); [apply steady_trans_complete | apply steady_ret].
  - intros. destruct (normalize_error e) as [[err msg]|];
      [apply steady_trans_error | apply steady_throw].
Qed.

Lemma steady_onMessage e st : steady_at (onMessage e) st.
Proof.
  unfold onMessage. apply steady_get_seqM.
  destruct (_ && _); [apply steady_ret|].
  destruct (descope _ _) as [um|]; [|apply steady_ret].
  apply steady_seqM; [by apply steady_when, steady_emit|]. intros.
  destruct (_ && _).
  { destruct (reg_get (regTbl st) _); [|apply steady_ret].
    unfold handle_request. apply steady_seqM; [by apply steady_modify|].
    intros. apply steady_request_body. }
  destruct (_ && _).
  { unfold handle_callback. apply steady_get_seqM.
    destruct (tranTbl st1 !! _) as [[|r]|]; try apply steady_ret.
    destruct (o_callbacks r !! _); [apply steady_enter|].
    destruct (Object_prototype _) as [b|]; [destruct (builtin_raises b)|];
      first [apply steady_throw | apply steady_ret]. }
  destruct (_ && _).
  { unfold handle_response. apply steady_get_seqM.
    destruct (tranTbl st1 !! _) as [[|r]|]; try apply steady_ret.
    apply steady_seqM; [|intros; by apply steady_modify].
    destruct (truthy _); [|apply steady_enter].
    destruct (o_error r); [apply steady_enter | apply steady_throw]. }
  destruct (truthy_str um); [|apply steady_ret].
  unfold handle_notification. apply steady_get_seqM.
  destruct (reg_get (regTbl st1) _); [|apply steady_ret].
  apply steady_seqM; [apply steady_run_handler | intros; apply steady_ret].
Qed.


Lemma steady_feed_messages es st :
  let r := feed_all (map IMessage es) st in
  same_settings st r.1 ∧ Forall (posts_to (cfg_origin st)) r.2
  ∧ (ready st = true → same_registry st r.1).
Proof.
  revert st. induction es as [|e es IH]; intros st.
  { cbn. split_and!; [apply same_settings_refl | constructor | intros; apply same_registry_refl]. }
  cbn [map feed_all fst snd].
  assert (steady_at (feed (IMessage e)) st) as H1.
  { cbn [feed]. apply steady_get_seqM.
    destruct (listening st); [apply steady_onMessage | apply steady_ret]. }
  specialize (IH (st_of (feed (IMessage e) st))). unfold steady_at in H1.
  destruct (feed (IMessage e) st) as [[r1 st1] ev1].
  unfold st_of, events_of in *. cbn [fst snd] in *. cbv zeta in IH.
  destruct (feed_all (map IMessage es) st1) as [st2 ev2].
  apply (steady_compose (r1, st1, ev1) (Ok tt, st2, ev2) st H1 IH).
Qed.

(** X24.  Replies go to the configured origin.  Whatever message events
    reach the listener, in whatever state, and whatever the bound functions
    do with their transaction objects (they are programs over that object,
    and do not use the channel object itself), every frame the channel
    posts, and everything it shows to the post observer, is addressed to
    the origin the channel is configured with; and the configuration
    itself (origin, scope, observers, listener) is left as it is. *)
Theorem replies_go_to_the_configured_origin es st :
  let r := feed_all (map IMessage es) st in
  Forall (posts_to (cfg_origin st)) r.2 ∧ same_settings st r.1.
Proof. intros r. by destruct (steady_feed_messages es st) as (? & ? & _). Qed.

(** X25.  A peer cannot touch the registry.  Once the channel is ready,
    message events, whatever they hold, leave the registry of bound
    functions, the transaction counter, the identity and the ready flag as
    they are, the bound functions using only their transaction object:
    nothing in the listener binds or unbinds, and only [call] takes
    transaction ids. *)
Theorem ready_channel_keeps_registry es st :
  ready st = true →
  let r := feed_all (map IMessage es) st in
  regTbl r.1 = regTbl st ∧ curTranId r.1 = curTranId st
  ∧ chanId r.1 = chanId st ∧ ready r.1 = true.
Proof.
  intros Hr r. destruct (steady_feed_messages es st) as (_ & _ & H).
  destruct (H Hr) as (? & ? & ? & Hready). split_and!; try done.
  subst r. by rewrite Hready.
Qed.

Lemma ready_channel_keeps_registry_witness :
  let es := [request_event 5 "echo" (VNum 1); ping_event; note_event] in
  let r := feed_all (map IMessage es) busy_chan in
  regTbl r.1 = regTbl busy_chan ∧ curTranId r.1 = curTranId busy_chan
  ∧ chanId r.1 = chanId busy_chan ∧ ready r.1 = true.
Proof.
  apply (ready_channel_keeps_registry
           [request_event 5 "echo" (VNum 1); ping_event; note_event] busy_chan).
  reflexivity.
Defined.

(** ** The wire, twice *)

Lemma null_if_undef_jsonify z :
  jsonify z = z → jsonify (null_if_undef z) = null_if_undef z.
Proof. intros H. by destruct z. Qed.

Lemma jsonify_props_again ps :
  Forall (λ kv, jsonify (jsonify kv.2) = jsonify kv.2) ps →
  filter (λ kv, is_undef kv.2 = false)
    (jsonify_props (filter (λ kv, is_undef kv.2 = false) (jsonify_props ps)))
  = filter (λ kv, is_undef kv.2 = false) (jsonify_props ps).
Proof.
  induction 1 as [|[k x] ps Hx _ IH]; [done|]. cbn [snd] in Hx.
  change (jsonify_props ((k, x) :: ps)) with ((k, jsonify x) :: jsonify_props ps).
  rewrite filter_cons. cbn [snd]. case_decide as Hu; [|exact IH].
  change (jsonify_props ((k, jsonify x) :: ?l)) with ((k, jsonify (jsonify x)) :: jsonify_props l).
  rewrite filter_cons. cbn [snd]. rewrite Hx, decide_True by done. by rewrite IH.
Qed.

Lemma assoc_again ps k :
  Forall (λ kv, jsonify (jsonify kv.2) = jsonify kv.2) ps →
  jsonify (jsonify (assoc k ps)) = jsonify (assoc k ps).
Proof.
  induction 1 as [|[k' x] ps Hx _ IH]; [done|]. cbn. case_decide; [exact Hx | exact IH].
Qed.

Lemma jsonify_idempotent v : jsonify (jsonify v) = jsonify v.
Proof.
  induction v as [| | | | | | ps IH | n ps IH] using value_ind'; try done.
  - rewrite !jsonify_obj. by rewrite jsonify_props_again.
  - rewrite !jsonify_arr. f_equal. apply map_ext_in. intros i Hi. f_equal.
    rewrite assoc_jsonify_props.
    rewrite (assoc_indexed (pretty i) n (λ s, null_if_undef (assoc s (jsonify_props ps)))).
    rewrite bool_decide_eq_true_2 by (apply list_elem_of_In, in_map, Hi).
    rewrite assoc_jsonify_props.
    rewrite null_if_undef_jsonify by (by apply assoc_again).
    by destruct (jsonify (assoc (pretty i) ps)).
Qed.

Lemma wire_idempotent m : wire (wire m) = wire m.
Proof. unfold wire. cbn. by rewrite !jsonify_idempotent. Qed.

(** X26.  The observer sees the frame as it arrived.  A frame that came
    over the wire, passes the origin check and is not dropped by the
    descoping is first shown to the got-message observer, if there is
    one, with the sender's origin: the clone made by serialising and
    parsing again is the frame itself, its method name still scoped, and
    the observer runs before any bound function or continuation. *)
Theorem observer_sees_the_frame_as_received st e m0 um :
  origin_accepted st e → cfg_gotMessageObserver st = true →
  e_data e = wire m0 →
  descope (cfg_scope st) (f_method (e_data e)) = Some um →
  ∃ rest, events_of (onMessage e st) = EGotObserver (e_origin e) (e_data e) :: rest.
Proof.
  intros Ho Hobs Hwire Hd. erewrite onMessage_accepted by done.
  unfold got_events. rewrite Hobs, Hwire, wire_idempotent.
  unfold events_of, prepend. cbn [snd app]. eauto.
Qed.

Lemma observer_sees_the_frame_as_received_witness :
  let st := Chan (Some "https://b.example") None false true false "abcde-L"
              {[ "echo" := HUser echo ]} ∅ 7 true [] true in
  let e := MessageEvent "https://b.example"
             (wire (request_frame 4 "echo" (VArr 2 [("0", VUndef); ("1", VNum 1)]) None)) in
  ∃ rest, events_of (onMessage e st) = EGotObserver (e_origin e) (e_data e) :: rest.
Proof.
  intros st e.
  apply (observer_sees_the_frame_as_received st e
           (request_frame 4 "echo" (VArr 2 [("0", VUndef); ("1", VNum 1)]) None)
           (Some "echo")); [right; reflexivity | reflexivity | reflexivity | reflexivity].
Defined.

(** ** A call, from end to end *)





(** ** The handshake, once more *)

Lemma onMessage_handshake st e :
  origin_accepted st e →
  ready st = false →
  regTbl st !! "__ready" = Some HReady →
  truthy_num (f_id (e_data e)) = false →
  descope (cfg_scope st) (f_method (e_data e)) = Some (Some "__ready") →
  onMessage e st
  = (Ok tt, after_ready (is_ping (f_params (e_data e))) st,
     got_events st e ++ EHandle "__ready" NullTrans (f_params (e_data e))
       :: ready_events (is_ping (f_params (e_data e))) st).
Proof.
  intros Ho Hr Hreg Hid Hm. erewrite onMessage_accepted by done. cbn zeta.
  rewrite Hid. cbn [andb from_option Datatypes.id truthy_str].
  change (negb (bool_decide ("__ready" = ""))) with true. cbv iota.
  unfold handle_notification. rewrite seqM_get, (reg_get_own _ _ _ Hreg).
  erewrite seqM_ok by (by apply run_handler_ready). by rewrite prepend_ret.
Qed.

Lemma post_events_no_onReady st msg : EOnReady ∉ post_events st msg.
Proof.
  unfold post_events. destruct (cfg_postMessageObserver st); cbn;
    rewrite ?elem_of_cons, elem_of_nil; intuition discriminate.
Qed.

(** X22.  The handshake happens once.  A channel that is not yet ready
    and has its own handler bound to __ready receives a __ready
    notification.  The ready observer, if there is one, is entered once,
    after everything else the listener does (the pong, the flush of the
    pending queue).  Any __ready notification that arrives afterwards is
    dropped: no pong, no flush, no ready observer. *)
Theorem handshake_happens_once st e e' :
  origin_accepted st e → ready st = false →
  regTbl st !! "__ready" = Some HReady →
  truthy_num (f_id (e_data e)) = false →
  descope (cfg_scope st) (f_method (e_data e)) = Some (Some "__ready") →
  origin_accepted st e' →
  truthy_num (f_id (e_data e')) = false →
  descope (cfg_scope st) (f_method (e_data e')) = Some (Some "__ready") →
  let r := onMessage e st in
  (∃ evs, events_of r = evs ++ (if cfg_onReady st then [EOnReady] else [])
          ∧ EOnReady ∉ evs)
  ∧ dropped (st_of r) e'.
Proof.
  intros Ho Hr Hreg Hid Hm Ho' Hid' Hm' r. subst r.
  rewrite onMessage_handshake by done. unfold st_of, events_of. cbn [fst snd]. split.
  - unfold ready_events.
    set (pong := if is_ping (f_params (e_data e)) then _ else []).
    set (flushed := concat _).
    exists (got_events st e ++ EHandle "__ready" NullTrans (f_params (e_data e))
              :: (pong ++ flushed)).
    split; [by rewrite <- !app_assoc, <- app_comm_cons, <- !app_assoc|].
    rewrite elem_of_app, elem_of_cons, elem_of_app. intros [Hin | [Heq | [Hin | Hin]]].
    + unfold got_events in Hin. destruct (cfg_gotMessageObserver st);
        [apply list_elem_of_singleton in Hin|apply elem_of_nil in Hin]; done.
    + done.
    + subst pong. destruct (is_ping _);
        [by apply post_events_no_onReady in Hin | by apply elem_of_nil in Hin].
    + subst flushed. induction (rev (pendingQueue st)) as [|msg l IH];
        [by apply elem_of_nil in Hin|].
      cbn in Hin. apply elem_of_app in Hin as [Hin | Hin]; [|by apply IH].
      by apply post_events_no_onReady in Hin.
  - apply dropped_got.
    assert (∀ ping, onMessage e' (after_ready ping st)
                    = (Ok tt, after_ready ping st, got_events (after_ready ping st) e')) as H.
    { intros ping.
      assert (origin_accepted (after_ready ping st) e') as Ho2 by (by destruct ping).
      assert (descope (cfg_scope (after_ready ping st)) (f_method (e_data e'))
              = Some (Some "__ready")) as Hm2 by (by destruct ping).
      erewrite onMessage_accepted by done.
      cbn zeta. rewrite Hid'. cbn [andb from_option Datatypes.id truthy_str].
      change (negb (bool_decide ("__ready" = ""))) with true. cbv iota.
      unfold handle_notification. rewrite seqM_get.
      assert (reg_get (regTbl (after_ready ping st)) "__ready" = None) as ->.
      { apply reg_get_None. split; [|reflexivity].
        unfold after_ready. destruct ping; cbn; apply lookup_delete_eq. }
      by rewrite prepend_ret. }
    apply H.
Qed.

Lemma handshake_happens_once_witness :
  let st := fresh_chan "https://b.example" 5 in
  let r := onMessage ping_event st in
  (∃ evs, events_of r = evs ++ (if cfg_onReady st then [EOnReady] else [])
          ∧ EOnReady ∉ evs)
  ∧ dropped (st_of r) pong_event.
Proof.
  apply (handshake_happens_once (fresh_chan "https://b.example" 5) ping_event pong_event);
    first [reflexivity | (right; reflexivity)].
Defined.

Lemma lor_one_odd r : Z.odd (Z.lor r 1) = true.
Proof. rewrite <- Z.bit0_odd, Z.lor_spec. cbn. apply orb_true_r. Qed.

(** X23.  One ping, disjoint ids.  Two channels as [build] returns them;
    one receives the __ready ping, the other the __ready pong.  Then
    whatever calls the two applications make afterwards (their arguments
    passing the checks), the ids of the first channel's requests are all
    even, those of the second are all odd, and no id is issued by both. *)
Theorem one_ping_separates_the_ids cfga ra ta a ea msa cfgb rb tb b eb msb :
  build cfga ra ta = Ok a → build cfgb rb tb = Ok b →
  origin_accepted a ea → truthy_num (f_id (e_data ea)) = false →
  descope (cfg_scope a) (f_method (e_data ea)) = Some (Some "__ready") →
  f_params (e_data ea) = VStr "ping" →
  origin_accepted b eb → truthy_num (f_id (e_data eb)) = false →
  descope (cfg_scope b) (f_method (e_data eb)) = Some (Some "__ready") →
  f_params (e_data eb) = VStr "pong" →
  Forall valid_call msa → Forall valid_call msb →
  let ids_a := request_ids (feed_all (map (λ m, IOp (OCall m)) msa)
                              (st_of (onMessage ea a))).2 in
  let ids_b := request_ids (feed_all (map (λ m, IOp (OCall m)) msb)
                              (st_of (onMessage eb b))).2 in
  (∀ id, id ∈ ids_a → Z.odd id = false)
  ∧ (∀ id, id ∈ ids_b → Z.odd id = true)
  ∧ ∀ id, id ∈ ids_a → id ∉ ids_b.
Proof.
  intros [Ha _]%build_Ok [Hb _]%build_Ok Hoa Hida Hda Hpa Hob Hidb Hdb Hpb Hva Hvb ids_a ids_b.
  assert (ready a = false ∧ regTbl a !! "__ready" = Some HReady ∧ Z.odd (curTranId a) = true)
    as (Hra & Hrega & Hodda).
  { rewrite Ha. stsimpl. split_and!; [done | done | apply lor_one_odd]. }
  assert (ready b = false ∧ regTbl b !! "__ready" = Some HReady ∧ Z.odd (curTranId b) = true)
    as (Hrb & Hregb & Hoddb).
  { rewrite Hb. stsimpl. split_and!; [done | done | apply lor_one_odd]. }
  assert (∀ id, id ∈ ids_a → Z.odd id = false) as Heven.
  { subst ids_a. rewrite onMessage_handshake by done. unfold st_of. cbn [fst snd].
    rewrite Hpa. cbn [is_ping]. rewrite bool_decide_eq_true_2 by done.
    destruct (calls_run msa (after_ready true a) eq_refl Hva) as (-> & _).
    intros id [_ ->]%ids_from_bounds. cbn. apply rem2_parity. }
  assert (∀ id, id ∈ ids_b → Z.odd id = true) as Hodd.
  { subst ids_b. rewrite onMessage_handshake by done. unfold st_of. cbn [fst snd].
    rewrite Hpb. cbn [is_ping]. rewrite bool_decide_eq_false_2 by done.
    destruct (calls_run msb (after_ready false b) eq_refl Hvb) as (-> & _).
    intros id [_ ->]%ids_from_bounds. cbn. exact Hoddb. }
  split_and!; [done | done |].
  intros id Hina Hinb. apply Heven in Hina. apply Hodd in Hinb. congruence.
Qed.

Lemma one_ping_separates_the_ids_witness :
  let a := fresh_chan "https://b.example" 5 in
  let b := fresh_chan "https://b.example" 11 in
  let ids_a := request_ids (feed_all (map (λ m, IOp (OCall m)) [stream_call VNull])
                              (st_of (onMessage ping_event a))).2 in
  let ids_b := request_ids (feed_all (map (λ m, IOp (OCall m)) [stream_call VNull])
                              (st_of (onMessage pong_event b))).2 in
  (∀ id, id ∈ ids_a → Z.odd id = false)
  ∧ (∀ id, id ∈ ids_b → Z.odd id = true)
  ∧ ∀ id, id ∈ ids_a → id ∉ ids_b.
Proof.
  apply (one_ping_separates_the_ids
           (cfg_to "https://b.example") 4 "abcde" (fresh_chan "https://b.example" 5)
           ping_event [stream_call VNull]
           (cfg_to "https://b.example") 10 "abcde" (fresh_chan "https://b.example" 11)
           pong_event [stream_call VNull]);
    first [reflexivity | (right; reflexivity)
          | (repeat constructor; first [discriminate | (eexists; reflexivity)])].
Defined.

(** ** A notification, from end to end *)


